(** * CC1101 serial-to-radio gateway: protocol engine of [src/main.cpp]

    A shallow embedding of the command interpreter, the outbound queue
    with its retry policy, the inbound packet decoder and the TX/RX mode
    flag, together with the properties the gateway's specification
    states about them.

    Conventions.
    - A C [int] / [unsigned int] / [uint8_t] is a [Z]; every conversion
      between integer types is written out ([to_uint], [to_uint8], ...).
    - An Arduino [String] is a [string]: the lines of the host protocol
      and the radio payloads are text without an embedded NUL.
    - The serial port is the text written to it so far; [println] ends
      a line with CR LF as [Print::println] does.
    - The radio driver, the JSON codec and the text-to-float conversion
      are collaborators: their answers are inputs of the model. *)

From Stdlib Require Import ZArith List Bool Ascii String Lia Permutation.
Import ListNotations.

Local Open Scope string_scope.
Local Open Scope Z_scope.

(** ** C integer conversions *)

(** Conversion to a 32-bit [unsigned int]. *)
Definition to_uint (n : Z) : Z := n mod 2 ^ 32.

(** Conversion to [uint8_t]. *)
Definition to_uint8 (n : Z) : Z := n mod 256.

(** Conversion to a 32-bit signed [int] / [long]. *)
Definition to_int32 (n : Z) : Z := (n + 2 ^ 31) mod 2 ^ 32 - 2 ^ 31.

Definition LONG_MAX : Z := 2 ^ 31 - 1.
Definition LONG_MIN : Z := - 2 ^ 31.

(** The code of a character as an unsigned byte. *)
Definition byte_of (c : ascii) : Z := Z.of_N (N_of_ascii c).

(** Promotion of a [char] to [int]: the byte itself where [char] is
    unsigned, its two's complement reading where [char] is signed. *)
Definition char_to_int (char_is_signed : bool) (c : ascii) : Z :=
  if char_is_signed && (128 <=? byte_of c) then byte_of c - 256 else byte_of c.

(** ** The Arduino [String] operations the gateway calls (WString) *)

Module WString.

Definition len (s : string) : Z := Z.of_nat (String.length s).

(** [buffer + n] *)
Fixpoint drop (n : nat) (s : string) : string :=
  match n, s with
  | O, _ => s
  | S _, EmptyString => EmptyString
  | S n', String _ s' => drop n' s'
  end.

(** the first [n] characters *)
Fixpoint take (n : nat) (s : string) : string :=
  match n, s with
  | O, _ => EmptyString
  | S _, EmptyString => EmptyString
  | S n', String c s' => String c (take n' s')
  end.

(** [startsWith(s2)]: false when [s2] is longer, otherwise [strncmp]
    over the length of [s2]. *)
Fixpoint startsWith (s s2 : string) : bool :=
  match s2, s with
  | EmptyString, _ => true
  | String _ _, EmptyString => false
  | String c2 s2', String c s' => Ascii.eqb c c2 && startsWith s' s2'
  end.

(** [strchr]: offset of the first occurrence. *)
Fixpoint strchr (s : string) (ch : ascii) : option nat :=
  match s with
  | EmptyString => None
  | String c s' =>
      if Ascii.eqb c ch then Some O
      else match strchr s' ch with
           | Some k => Some (S k)
           | None => None
           end
  end.

(** [strrchr]: offset of the last occurrence. *)
Fixpoint strrchr (s : string) (ch : ascii) : option nat :=
  match s with
  | EmptyString => None
  | String c s' =>
      match strrchr s' ch with
      | Some k => Some (S k)
      | None => if Ascii.eqb c ch then Some O else None
      end
  end.

(** [indexOf(ch, fromIndex)] with [fromIndex] an [unsigned int]. *)
Definition indexOf_from (s : string) (ch : ascii) (fromIndex : Z) : Z :=
  let fromIndex := to_uint fromIndex in
  if len s <=? fromIndex then -1
  else match strchr (drop (Z.to_nat fromIndex) s) ch with
       | Some k => fromIndex + Z.of_nat k
       | None => -1
       end.

(** [indexOf(ch)] is [indexOf(ch, 0)]. *)
Definition indexOf (s : string) (ch : ascii) : Z := indexOf_from s ch 0.

(** [lastIndexOf(ch)] is [lastIndexOf(ch, len - 1)]: nothing is found
    in the empty string, otherwise [strrchr] over the whole text. *)
Definition lastIndexOf (s : string) (ch : ascii) : Z :=
  let fromIndex := to_uint (len s - 1) in
  if len s <=? fromIndex then -1
  else match strrchr (take (Z.to_nat (fromIndex + 1)) s) ch with
       | Some k => Z.of_nat k
       | None => -1
       end.

(** [substring(left, right)]: both bounds are [unsigned int], so an
    [int] argument (such as the -1 of a failed [indexOf]) is converted
    first; the bounds are swapped when out of order, an out-of-range
    [left] gives the empty text and [right] is clipped to the length. *)
Definition substring (s : string) (left_ right_ : Z) : string :=
  let l := to_uint left_ in
  let r := to_uint right_ in
  let lo := if r <? l then r else l in
  let hi := if r <? l then l else r in
  if len s <=? lo then EmptyString
  else
    let hi := if len s <? hi then len s else hi in
    take (Z.to_nat (hi - lo)) (drop (Z.to_nat lo) s).

(** A [String] whose length fits an [int], as the [int] results of
    [indexOf] and [lastIndexOf] take for granted. *)
Definition fits (s : string) : Prop := len s < 2 ^ 31.

(** The text the gateway cuts out after a prefix: up to the first
    [ch], or all the rest when no [ch] follows. *)
Definition upto (ch : ascii) (rest : string) : string :=
  match strchr rest ch with
  | Some k => take k rest
  | None => rest
  end.

End WString.

(** ** Checksum *)

Section Checksum.

(** Whether the platform's plain [char] is signed. *)
Variable char_is_signed : bool.

(** One turn of the loop body [sum = (sum + c) % 256]: [sum] and [c]
    are promoted to [int], [%] is C's remainder (sign of the dividend)
    and the assignment converts back to [uint8_t]. *)
Definition checksum_step (sum : Z) (c : ascii) : Z :=
  to_uint8 (Z.rem (sum + char_to_int char_is_signed c) 256).

Fixpoint checksum_loop (payload : string) (sum : Z) : Z :=
  match payload with
  | EmptyString => sum
  | String c rest => checksum_loop rest (checksum_step sum c)
  end.

Definition calculateChecksum (payload : string) : Z :=
  checksum_loop payload 0.

End Checksum.

(** The checksum in the specification's words: the codes of the
    characters added one at a time, reduced modulo 256 after each
    addition. *)
Fixpoint running_sum (payload : string) (sum : Z) : Z :=
  match payload with
  | EmptyString => sum
  | String c rest => running_sum rest ((sum + byte_of c) mod 256)
  end.

(** The plain sum of the character codes. *)
Fixpoint code_sum (payload : string) : Z :=
  match payload with
  | EmptyString => 0
  | String c rest => byte_of c + code_sum rest
  end.

(** ** Numbers as text *)

(** The digit table of [utoa]: lower-case letters from ten on.  Up to
    nine it is also the table of [Print::printNumber]. *)
Definition digit_char (d : Z) : ascii :=
  if d <? 10 then ascii_of_N (Z.to_N (48 + d)) else ascii_of_N (Z.to_N (87 + d)).

(** The digit loop [do { *--p = digit(n % base); n /= base; } while (n)].
    The fuel bounds the number of digits; 32 is enough for any 32-bit
    value in any base. *)
Fixpoint utoa_loop (fuel : nat) (n base : Z) (acc : string) : string :=
  match fuel with
  | O => acc
  | S fuel' =>
      let acc' := String (digit_char (n mod base)) acc in
      if n / base =? 0 then acc' else utoa_loop fuel' (n / base) base acc'
  end.

Definition utoa (n base : Z) : string := utoa_loop 32 n base EmptyString.

Definition HEX : Z := 16.
Definition DEC : Z := 10.

(** [String(unsigned char value, unsigned char base)] *)
Definition String_of_uchar (value base : Z) : string := utoa (to_uint8 value) base.

(** The specification's checksum text: two hexadecimal digits, the
    high one first (a leading zero for a value below 16). *)
Definition two_hex_digits (n : Z) : string :=
  String (digit_char (n / 16)) (String (digit_char (n mod 16)) EmptyString).

(** [Print::print(int)]: a minus sign for a negative value, then the
    digits of its magnitude taken as [unsigned long]. *)
Definition print_int (n : Z) : string :=
  if n <? 0 then String "-"%char (utoa (to_uint (- n)) DEC)
  else utoa (to_uint n) DEC.

Definition isspace (c : ascii) : bool :=
  (byte_of c =? 32) || ((9 <=? byte_of c) && (byte_of c <=? 13)).

Definition isdigit (c : ascii) : bool :=
  (48 <=? byte_of c) && (byte_of c <=? 57).

Fixpoint skip_space (s : string) : string :=
  match s with
  | String c s' => if isspace c then skip_space s' else s
  | EmptyString => s
  end.

(** The value of the leading decimal digits, continuing from [acc]. *)
Fixpoint digits_value (s : string) (acc : Z) : Z :=
  match s with
  | String c s' =>
      if isdigit c then digits_value s' (acc * 10 + (byte_of c - 48)) else acc
  | EmptyString => acc
  end.

(** A text made of decimal digits only. *)
Fixpoint all_digits (s : string) : bool :=
  match s with
  | String c s' => isdigit c && all_digits s'
  | EmptyString => true
  end.

(** [atol], that is [strtol(s, NULL, 10)]: white space, an optional
    sign, decimal digits; no digits give 0 and a value out of range is
    clamped to [LONG_MIN] / [LONG_MAX]. *)
Definition atol (s : string) : Z :=
  match skip_space s with
  | String c s' as body =>
      if Ascii.eqb c "-"%char then Z.max LONG_MIN (- digits_value s' 0)
      else if Ascii.eqb c "+"%char then Z.min LONG_MAX (digits_value s' 0)
      else Z.min LONG_MAX (digits_value body 0)
  | EmptyString => 0
  end.

(** [String::toInt] *)
Definition toInt (s : string) : Z := atol s.

(** [strlcpy(dst, src, size)] into a buffer of [size] bytes: at most
    [size - 1] characters are kept.  A null [src] is undefined. *)
Definition strlcpy (src : option string) (size : Z) : option string :=
  match src with
  | Some text => Some (WString.take (Z.to_nat (size - 1)) text)
  | None => None
  end.

Definition skip_sign (s : string) : string :=
  match s with
  | String c s' =>
      if Ascii.eqb c "-"%char || Ascii.eqb c "+"%char then s' else s
  | EmptyString => s
  end.

Definition lower (c : ascii) : ascii :=
  if (65 <=? byte_of c) && (byte_of c <=? 90)
  then ascii_of_N (Z.to_N (byte_of c + 32)) else c.

Fixpoint startsWith_nocase (s s2 : string) : bool :=
  match s2, s with
  | EmptyString, _ => true
  | String _ _, EmptyString => false
  | String c2 s2', String c s' => Ascii.eqb (lower c) c2 && startsWith_nocase s' s2'
  end.

(** When [strtod], and so [atof], converts anything at all: after white
    space and an optional sign the text must begin a decimal or
    hexadecimal number (a digit, or a point followed by a digit), an
    infinity or a NaN. *)
Definition strtod_converts (s : string) : bool :=
  match skip_sign (skip_space s) with
  | String c rest as body =>
      isdigit c
      || (Ascii.eqb c "."%char
          && match rest with String d _ => isdigit d | EmptyString => false end)
      || startsWith_nocase body "inf"
      || startsWith_nocase body "nan"
  | EmptyString => false
  end.

(** The specification's well-formed numeric text: an optional sign, then
    decimal digits with at most one point among them, at least one
    digit, and nothing else.  Any other text is malformed. *)
Fixpoint digits_and_point (s : string) (seen_point seen_digit : bool) : bool :=
  match s with
  | EmptyString => seen_digit
  | String c s' =>
      if isdigit c then digits_and_point s' seen_point true
      else if Ascii.eqb c "."%char && negb seen_point
           then digits_and_point s' true seen_digit
           else false
  end.

Definition well_formed_number (s : string) : bool :=
  digits_and_point (skip_sign s) false false.

(** ** The outbound queue (ArduinoQueue) *)

Module ArduinoQueue.

(** A FIFO of at most [maxItems] entries; [items] lists them from head
    to tail. *)
Record t : Type := mk { items : list string; maxItems : Z }.

Definition create (maxItems : Z) : t := mk [] maxItems.

Definition count (q : t) : Z := Z.of_nat (List.length (items q)).

Definition isEmpty (q : t) : bool :=
  match items q with
  | [] => true
  | _ :: _ => false
  end.

(** [enqueue]: refused, leaving the queue as it is, when
    [count == maxItems]; otherwise the item becomes the tail (the
    allocation of the new node is taken to succeed). *)
Definition enqueue (item : string) (q : t) : t :=
  if count q =? maxItems q then q
  else mk (items q ++ [item])%list (maxItems q).

(** [dequeue]: the head and the queue without it; a default
    (empty) [String] from an empty queue. *)
Definition dequeue (q : t) : string * t :=
  match items q with
  | [] => (EmptyString, q)
  | item :: rest => (item, mk rest (maxItems q))
  end.

(** The entry count never exceeds the capacity. *)
Definition wf (q : t) : Prop := count q <= maxItems q.

End ArduinoQueue.

(** ** Collaborators *)

(** What the gateway takes from its platform and libraries: the
    signedness of [char], the [float] type with the text-to-float
    conversion behind [String::toFloat], and the ArduinoJson document
    with the accessors [main.cpp] uses. *)
Class Platform : Type := {
  char_is_signed : bool;
  float : Type;
  (** [atof], through [String::toFloat] *)
  atof : string -> float;
  (** the literal [868.0] *)
  float_868 : float;
  float_zero : float;
  JsonDocument : Type;
  DeserializationError : Type;
  (** [error.c_str()] of an error that is set *)
  c_str : DeserializationError -> string;
  (** [deserializeJson(doc, input)]: the filled document, or the error *)
  deserializeJson : string -> JsonDocument + DeserializationError;
  (** [doc[key]] read as [const char*]: null unless a string is there *)
  as_cstr : JsonDocument -> string -> option string;
  (** [doc[key]] read as [uint16_t] *)
  as_uint16 : JsonDocument -> string -> Z;
  (** [doc[key]] read as [size_t] *)
  as_size_t : JsonDocument -> string -> Z;
  (** [doc[key].as<String>()] *)
  as_String : JsonDocument -> string -> string;
  (** the text [serializeJson(doc, Serial)] writes *)
  serializeJson : JsonDocument -> string
}.

Definition RADIOLIB_ERR_NONE : Z := 0.

Definition CRLF : string :=
  String (ascii_of_nat 13) (String (ascii_of_nat 10) EmptyString).

Section Gateway.

Context {P : Platform}.

(** Calls made to the radio driver, oldest first. *)
Inductive RadioCall : Type :=
| SetFrequency (freq : float)
| Transmit (packet : string)
| Receive.

(** The globals of [main.cpp] and the two devices it writes to. *)
Record State : Type := mkState {
  transmitMode : bool;
  currentFreq : float;
  packetQueue : ArduinoQueue.t;
  serial : string;
  radio : list RadioCall
}.

(** The static initialisers: [transmitMode = true],
    [currentFreq = 868.0], [packetQueue(50)]. *)
Definition initial_state : State :=
  mkState true float_868 (ArduinoQueue.create 50) EmptyString [].

Record PacketHeader : Type := mkHeader {
  type : string;
  seq : Z;
  total : Z;
  filename : string;
  checksum : string;
  data_len : Z
}.

Definition Serial_print (text : string) (st : State) : State :=
  mkState (transmitMode st) (currentFreq st) (packetQueue st)
          (serial st ++ text) (radio st).

Definition Serial_println (text : string) (st : State) : State :=
  Serial_print CRLF (Serial_print text st).

Definition radio_call (c : RadioCall) (st : State) : State :=
  mkState (transmitMode st) (currentFreq st) (packetQueue st)
          (serial st) (radio st ++ [c])%list.

Definition set_transmitMode (b : bool) (st : State) : State :=
  mkState b (currentFreq st) (packetQueue st) (serial st) (radio st).

Definition set_currentFreq (f : float) (st : State) : State :=
  mkState (transmitMode st) f (packetQueue st) (serial st) (radio st).

Definition set_packetQueue (q : ArduinoQueue.t) (st : State) : State :=
  mkState (transmitMode st) (currentFreq st) q (serial st) (radio st).

(** The three locals of the [<FILE|] branch. *)
Definition file_fields (command : string) : string * Z * Z :=
  let filename :=
    WString.substring command 6 (WString.indexOf_from command "|" 6) in
  let total :=
    to_int32 (toInt (WString.substring command
                       (WString.indexOf_from command "|" 6 + 1)
                       (WString.lastIndexOf command "|"))) in
  let size :=
    to_int32 (toInt (WString.substring command
                       (WString.lastIndexOf command "|" + 1)
                       (WString.indexOf command ">"))) in
  (filename, total, size).

Definition handleRadioCommand (command : string) (st : State) : State :=
  if WString.startsWith command "<SET|" then
    let freq := atof (WString.substring command 5 (WString.indexOf command ",")) in
    let st := set_currentFreq freq st in
    let st := radio_call (SetFrequency (currentFreq st)) st in
    Serial_println "<STATUS|FREQ_SET>" st
  else if WString.startsWith command "<TXMODE>" then
    let st := set_transmitMode true st in
    Serial_println "<STATUS|TX_MODE>" st
  else if WString.startsWith command "<RXMODE>" then
    let st := set_transmitMode false st in
    Serial_println "<STATUS|RX_MODE>" st
  else if WString.startsWith command "<RX_READY>" then
    Serial_println "<STATUS|RX_READY>" st
  else if WString.startsWith command "<FILE|" then
    let '(filename, total, size) := file_fields command in
    let st := Serial_print "<STATUS|FILE_START|" st in
    let st := Serial_print filename st in
    let st := Serial_print "|" st in
    let st := Serial_print (print_int total) st in
    Serial_println ">" st
  else if WString.startsWith command "<DATA|" then
    let payload := WString.substring command 6 (WString.indexOf command ">") in
    set_packetQueue (ArduinoQueue.enqueue payload (packetQueue st)) st
  else st.

(** [transmit] is the status the radio returns for the packet it is
    handed in this attempt. *)
Definition handleTransmission (transmit : string -> Z) (st : State) : State :=
  if negb (ArduinoQueue.isEmpty (packetQueue st)) then
    let '(packet, q) := ArduinoQueue.dequeue (packetQueue st) in
    let st := set_packetQueue q st in
    let st := radio_call (Transmit packet) st in
    let state := transmit packet in
    if state =? RADIOLIB_ERR_NONE then
      Serial_println "<STATUS|TX_SUCCESS>" st
    else
      let st := Serial_println "<STATUS|TX_FAIL>" st in
      set_packetQueue (ArduinoQueue.enqueue packet (packetQueue st)) st
  else st.

(** [rx] is what [radio.receive] answers: its status and the text it
    stored.  The result is [None] where the code runs into undefined
    behaviour: [strlcpy] from the null pointer of a member that is
    missing or is no string. *)
Definition handleReception (rx : Z * string) (st : State) : option State :=
  let '(state, received) := rx in
  let st := radio_call Receive st in
  if state =? RADIOLIB_ERR_NONE then
    match deserializeJson received with
    | inr error =>
        let st := Serial_print "<ERROR|JSON:" st in
        let st := Serial_print (c_str error) st in
        Some (Serial_println ">" st)
    | inl doc =>
        match strlcpy (as_cstr doc "type") 8,
              strlcpy (as_cstr doc "filename") 32,
              strlcpy (as_cstr doc "checksum") 3 with
        | Some h_type, Some h_filename, Some h_checksum =>
            let header :=
              mkHeader h_type (as_uint16 doc "seq") (as_uint16 doc "total")
                       h_filename h_checksum (as_size_t doc "data_len") in
            let data := as_String doc "data" in
            let calcSum := calculateChecksum char_is_signed data in
            if negb (String.eqb (String_of_uchar calcSum HEX) (checksum header)) then
              Some (Serial_println "<STATUS|CHECKSUM_ERR>" st)
            else
              let st := Serial_print "<DATA|" st in
              let st := Serial_print (serializeJson doc) st in
              Some (Serial_println ">" st)
        | _, _, _ => None
        end
    end
  else Some st.

(** What one turn of [loop] meets: the line read from the serial port
    if one is available, and the radio's answers. *)
Record LoopInput : Type := mkInput {
  line : option string;
  transmit_result : string -> Z;
  receive_result : Z * string
}.

Definition loop (i : LoopInput) (st : State) : option State :=
  let st :=
    match line i with
    | Some command => handleRadioCommand command st
    | None => st
    end in
  if transmitMode st then Some (handleTransmission (transmit_result i) st)
  else handleReception (receive_result i) st.

(** The interpreter fed a sequence of lines. *)
Definition handleRadioCommands (commands : list string) (st : State) : State :=
  fold_left (fun st command => handleRadioCommand command st) commands st.

(** A line that asks for neither mode. *)
Definition keeps_mode (command : string) : Prop :=
  WString.startsWith command "<RXMODE>" = false
  /\ WString.startsWith command "<TXMODE>" = false.

(** Successive turns of [loop]. *)
Fixpoint run (inputs : list LoopInput) (st : State) : option State :=
  match inputs with
  | [] => Some st
  | i :: rest =>
      match loop i st with
      | Some st' => run rest st'
      | None => None
      end
  end.

(** Successive transmission attempts, one radio answer per attempt. *)
Fixpoint attempts (radios : list (string -> Z)) (st : State) : State :=
  match radios with
  | [] => st
  | transmit :: rest => attempts rest (handleTransmission transmit st)
  end.

End Gateway.

(** ** A reference platform

    A small concrete platform on which the gateway can be run: [char]
    is unsigned, a float is a decimal reading (mantissa, number of
    fraction digits) of plain decimal text, and the codec reads
    [key=value] members separated by semicolons. *)

Module Reference.

Fixpoint read_fraction (s : string) (m k : Z) : Z * Z :=
  match s with
  | String c s' =>
      if isdigit c then read_fraction s' (m * 10 + (byte_of c - 48)) (k + 1)
      else (m, k)
  | EmptyString => (m, k)
  end.

Fixpoint read_decimal (s : string) (m : Z) : Z * Z :=
  match s with
  | String c s' =>
      if isdigit c then read_decimal s' (m * 10 + (byte_of c - 48))
      else if Ascii.eqb c "."%char then read_fraction s' m 0
      else (m, 0)
  | EmptyString => (m, 0)
  end.

Definition decimal_atof (s : string) : Z * Z :=
  if strtod_converts s then
    match skip_space s with
    | String c s' as body =>
        if Ascii.eqb c "-"%char
        then let '(m, k) := read_decimal s' 0 in (- m, k)
        else if Ascii.eqb c "+"%char then read_decimal s' 0
        else read_decimal body 0
    | EmptyString => (0, 0)
    end
  else (0, 0).

Definition Members : Type := list (string * string).

Fixpoint members (s key : string) (value : option string) : Members :=
  match s with
  | EmptyString =>
      match value with
      | Some v => [(key, v)]
      | None => []
      end
  | String c s' =>
      match value with
      | None =>
          if Ascii.eqb c "="%char then members s' key (Some EmptyString)
          else members s' (key ++ String c EmptyString) None
      | Some v =>
          if Ascii.eqb c ";"%char then (key, v) :: members s' EmptyString None
          else members s' key (Some (v ++ String c EmptyString))
      end
  end.

Definition parse_members (input : string) : Members + string :=
  match input with
  | EmptyString => inr "EmptyInput"
  | _ => inl (members input EmptyString None)
  end.

Fixpoint member (doc : Members) (key : string) : option string :=
  match doc with
  | [] => None
  | (k, v) :: rest => if String.eqb k key then Some v else member rest key
  end.

Definition as_number (doc : Members) (key : string) : Z :=
  match member doc key with
  | Some v => Z.max 0 (atol v)
  | None => 0
  end.

Definition member_text (doc : Members) (key : string) : string :=
  match member doc key with
  | Some v => v
  | None => "null"
  end.

Fixpoint render_members (doc : Members) : string :=
  match doc with
  | [] => EmptyString
  | (k, v) :: rest => k ++ "=" ++ v ++ ";" ++ render_members rest
  end.

Definition platform : Platform := {|
  char_is_signed := false;
  float := Z * Z;
  atof := decimal_atof;
  float_868 := (8680, 1);
  float_zero := (0, 0);
  JsonDocument := Members;
  DeserializationError := string;
  c_str := fun e => e;
  deserializeJson := parse_members;
  as_cstr := member;
  as_uint16 := fun doc key => as_number doc key mod 2 ^ 16;
  as_size_t := as_number;
  as_String := member_text;
  serializeJson := render_members
|}.

End Reference.

(** ** Start-up and helpers for stating properties *)

Section Startup.

Context {P : Platform}.

(** The float literals [1.2], [58.0] and [5.0] of [initializeRadio]. *)
Variables (float_1_2 float_58 float_5 : float).

(** The calls [initializeRadio] makes to the radio driver. *)
Inductive RadioSetupCall : Type :=
| Begin (freq : float)
| SetBitRate (br : float)
| SetRxBandwidth (bw : float)
| SetFrequencyDeviation (dev : float)
| SetOutputPower (power : Z).

(** How start-up ends: the radio is configured and [loop] takes over,
    or [initializeRadio] stays in its [while(true)] for ever. *)
Inductive Boot : Type :=
| Ready (st : State) (calls : list RadioSetupCall)
| Halted (st : State) (calls : list RadioSetupCall).

(** [begin_result] is what [radio.begin] answers. *)
Definition initializeRadio (begin_result : Z) (st : State) : Boot :=
  let state := begin_result in
  let calls := [Begin (currentFreq st)] in
  if negb (state =? RADIOLIB_ERR_NONE) then
    let st := Serial_print "<ERROR|RADIO_INIT_CODE:" st in
    let st := Serial_print (print_int state) st in
    let st := Serial_println ">" st in
    Halted st calls
  else
    Ready st (calls ++ [SetBitRate float_1_2; SetRxBandwidth float_58;
                        SetFrequencyDeviation float_5; SetOutputPower 10])%list.

(** [setup]: [Serial.begin] and [SPI.begin] write nothing; then
    [initializeRadio] on the statically initialised globals. *)
Definition setup (begin_result : Z) : Boot :=
  initializeRadio begin_result initial_state.

(** The program: [setup], then [loop] turn after turn unless start-up
    never returned, in which case the state stays as it was left. *)
Definition program (begin_result : Z) (inputs : list LoopInput) : option State :=
  match setup begin_result with
  | Ready st _ => run inputs st
  | Halted st _ => Some st
  end.

End Startup.

Section Helpers.

Context {P : Platform}.

(** The line [<DATA|payload>]. *)
Definition data_line (payload : string) : string := "<DATA|" ++ payload ++ ">".

(** [n] copies of a text, one after the other. *)
Fixpoint repeat_text (n : nat) (text : string) : string :=
  match n with
  | O => EmptyString
  | S n' => text ++ repeat_text n' text
  end.

(** The frequency of the latest [setFrequency] call in a radio log. *)
Fixpoint last_SetFrequency (calls : list RadioCall) : option float :=
  match calls with
  | [] => None
  | c :: rest =>
      match last_SetFrequency rest with
      | Some f => Some f
      | None =>
          match c with
          | SetFrequency f => Some f
          | _ => None
          end
      end
  end.

(** A radio that accepts whatever it is handed, and one that refuses. *)
Definition accepts (transmit : string -> Z) : Prop :=
  forall packet, transmit packet = RADIOLIB_ERR_NONE.

Definition refuses (transmit : string -> Z) : Prop :=
  forall packet, transmit packet <> RADIOLIB_ERR_NONE.

(** A turn of [loop] whose line, if any, asks for neither mode. *)
Definition quiet_turn (i : LoopInput) : Prop :=
  match line i with
  | Some command => keeps_mode command
  | None => True
  end.

End Helpers.

(** * Properties *)

(** ** Checksum *)

Lemma byte_of_range (c : ascii) : 0 <= byte_of c < 256.
Proof.
  unfold byte_of. pose proof (N_ascii_bounded c). lia.
Qed.

Lemma char_to_int_mod (signed : bool) (c : ascii) :
  char_to_int signed c mod 256 = byte_of c.
Proof.
  pose proof (byte_of_range c) as Hc. unfold char_to_int.
  destruct (signed && (128 <=? byte_of c)).
  - replace (byte_of c - 256) with (byte_of c + (-1) * 256) by lia.
    rewrite Z.mod_add by lia. apply Z.mod_small; lia.
  - apply Z.mod_small; lia.
Qed.

(** C's remainder followed by the conversion to [uint8_t] is the
    mathematical residue, whatever the sign of the dividend. *)
Lemma rem_then_uint8 (x : Z) : to_uint8 (Z.rem x 256) = x mod 256.
Proof.
  unfold to_uint8.
  pose proof (Z.quot_rem' x 256) as H.
  replace (Z.rem x 256) with (x + (- Z.quot x 256) * 256) by lia.
  apply Z.mod_add; lia.
Qed.

Lemma checksum_step_spec (signed : bool) (sum : Z) (c : ascii) :
  checksum_step signed sum c = (sum + byte_of c) mod 256.
Proof.
  unfold checksum_step. rewrite rem_then_uint8.
  rewrite Z.add_mod by lia. rewrite char_to_int_mod.
  apply Z.add_mod_idemp_l. lia.
Qed.

Lemma checksum_loop_running (signed : bool) (payload : string) :
  forall sum, checksum_loop signed payload sum = running_sum payload sum.
Proof.
  induction payload as [| c rest IH]; intros sum; simpl.
  - reflexivity.
  - rewrite checksum_step_spec. apply IH.
Qed.

Lemma running_sum_total (payload : string) :
  forall sum, 0 <= sum < 256 ->
    running_sum payload sum = (sum + code_sum payload) mod 256.
Proof.
  induction payload as [| c rest IH]; intros sum Hsum; simpl.
  - rewrite Z.add_0_r. symmetry. apply Z.mod_small. exact Hsum.
  - rewrite IH by (apply Z.mod_pos_bound; lia).
    rewrite Z.add_mod_idemp_l by lia. f_equal. lia.
Qed.

Lemma calculateChecksum_range (signed : bool) (payload : string) :
  0 <= calculateChecksum signed payload <= 255.
Proof.
  unfold calculateChecksum. rewrite checksum_loop_running.
  rewrite running_sum_total by lia.
  pose proof (Z.mod_pos_bound (0 + code_sum payload) 256). lia.
Qed.

(** C2. [calculateChecksum] is a function of the payload alone: on
    either kind of [char] it is the running sum of the character codes
    reduced modulo 256 after each addition, which is also the plain sum
    modulo 256; it lies in [0,255]; it is 0 on the empty payload; it
    does not depend on the signedness of [char]; and, taking nothing
    but the payload, it gives the same value whenever it is called on
    the same payload. *)
Theorem calculateChecksum_running_sum :
  forall (signed : bool) (payload : string),
    calculateChecksum signed payload = running_sum payload 0
    /\ calculateChecksum signed payload = code_sum payload mod 256
    /\ 0 <= calculateChecksum signed payload <= 255
    /\ calculateChecksum signed EmptyString = 0
    /\ calculateChecksum signed payload = calculateChecksum (negb signed) payload
    /\ calculateChecksum signed payload = calculateChecksum signed payload.
Proof.
  intros signed payload.
  assert (Hrun : calculateChecksum signed payload = running_sum payload 0).
  { unfold calculateChecksum. apply checksum_loop_running. }
  split; [exact Hrun |].
  split.
  { rewrite Hrun. rewrite running_sum_total by lia. reflexivity. }
  split; [apply calculateChecksum_range |].
  split; [reflexivity |].
  split; [| reflexivity].
  unfold calculateChecksum. now rewrite !checksum_loop_running.
Qed.

(** ** Facts about the [String] operations *)

Module WStringFacts.
Import WString.

Lemma append_assoc (a b c : string) : (a ++ b) ++ c = a ++ (b ++ c).
Proof. induction a as [| x a IH]; simpl; [reflexivity | now rewrite IH]. Qed.

Lemma append_nil_r (a : string) : a ++ EmptyString = a.
Proof. induction a as [| x a IH]; simpl; [reflexivity | now rewrite IH]. Qed.

Lemma length_append (a b : string) :
  String.length (a ++ b) = (String.length a + String.length b)%nat.
Proof. induction a as [| x a IH]; simpl; [reflexivity | now rewrite IH]. Qed.

Lemma len_append (a b : string) : len (a ++ b) = len a + len b.
Proof. unfold len. rewrite length_append. lia. Qed.

Lemma len_nonneg (a : string) : 0 <= len a.
Proof. unfold len. lia. Qed.

Lemma drop_app (a b : string) : drop (String.length a) (a ++ b) = b.
Proof. induction a as [| x a IH]; simpl; [now destruct b | exact IH]. Qed.

Lemma take_app (a b : string) : take (String.length a) (a ++ b) = a.
Proof. induction a as [| x a IH]; simpl; [now destruct b | now rewrite IH]. Qed.

Lemma take_all (s : string) :
  forall n, (String.length s <= n)%nat -> take n s = s.
Proof.
  induction s as [| x s IH]; intros [| n] H; simpl in *; try reflexivity; try lia.
  rewrite IH by lia. reflexivity.
Qed.

Lemma drop_all (s : string) :
  forall n, (String.length s <= n)%nat -> drop n s = EmptyString.
Proof.
  induction s as [| x s IH]; intros [| n] H; simpl in *; try reflexivity; try lia.
  apply IH. lia.
Qed.

Lemma length_drop (s : string) :
  forall n, String.length (drop n s) = (String.length s - n)%nat.
Proof.
  induction s as [| x s IH]; intros [| n]; simpl; try reflexivity. apply IH.
Qed.

Lemma take_0 (s : string) : take 0 s = EmptyString.
Proof. now destruct s. Qed.

Lemma startsWith_app (p s : string) : startsWith (p ++ s) p = true.
Proof.
  induction p as [| x p IH]; simpl; [now destruct s |].
  now rewrite Ascii.eqb_refl.
Qed.

Lemma startsWith_inv (p : string) :
  forall s, startsWith s p = true -> s = p ++ drop (String.length p) s.
Proof.
  induction p as [| x p IH]; intros s H; simpl in *.
  - now destruct s.
  - destruct s as [| c s]; [discriminate |].
    apply andb_true_iff in H as [Hc Hs].
    apply Ascii.eqb_eq in Hc. subst c. f_equal. now apply IH.
Qed.

Lemma strchr_bound (s : string) (ch : ascii) :
  forall k, strchr s ch = Some k -> (k < String.length s)%nat.
Proof.
  induction s as [| c s IH]; intros k H; simpl in *; [discriminate |].
  destruct (Ascii.eqb c ch).
  - injection H as <-. lia.
  - destruct (strchr s ch) as [j |]; [| discriminate].
    injection H as <-. specialize (IH j eq_refl). lia.
Qed.

(** The text before the first [ch] holds no [ch], and [ch] follows. *)
Lemma strchr_split (s : string) (ch : ascii) :
  forall k, strchr s ch = Some k ->
    s = take k s ++ String ch (drop (S k) s) /\ strchr (take k s) ch = None.
Proof.
  induction s as [| c s IH]; intros k H; simpl in *; [discriminate |].
  destruct (Ascii.eqb c ch) eqn:E.
  - injection H as <-. apply Ascii.eqb_eq in E. subst c.
    split; [now destruct s | reflexivity].
  - destruct (strchr s ch) as [j |]; [| discriminate].
    injection H as <-. destruct (IH j eq_refl) as [H1 H2].
    simpl. rewrite E, H2. split; [| reflexivity].
    f_equal. exact H1.
Qed.

Lemma strchr_app_r (a b : string) (ch : ascii) :
  strchr a ch = None ->
  strchr (a ++ b) ch =
    match strchr b ch with
    | Some k => Some (String.length a + k)%nat
    | None => None
    end.
Proof.
  induction a as [| c a IH]; intros H; simpl in *.
  - now destruct (strchr b ch).
  - destruct (Ascii.eqb c ch); [discriminate |].
    destruct (strchr a ch); [discriminate |].
    rewrite (IH eq_refl). now destruct (strchr b ch).
Qed.

Lemma strchr_here (b : string) (ch : ascii) : strchr (String ch b) ch = Some O.
Proof. simpl. now rewrite Ascii.eqb_refl. Qed.

Lemma strchr_app_none (a b : string) (ch : ascii) :
  strchr a ch = None -> strchr b ch = None -> strchr (a ++ b) ch = None.
Proof. intros Ha Hb. rewrite strchr_app_r by exact Ha. now rewrite Hb. Qed.

Lemma strrchr_none (s : string) (ch : ascii) :
  strchr s ch = None -> strrchr s ch = None.
Proof.
  induction s as [| c s IH]; intros H; simpl in *; [reflexivity |].
  destruct (Ascii.eqb c ch); [discriminate |].
  destruct (strchr s ch); [discriminate |].
  now rewrite (IH eq_refl).
Qed.

Lemma strrchr_app_r (a b : string) (ch : ascii) :
  forall k, strrchr b ch = Some k ->
    strrchr (a ++ b) ch = Some (String.length a + k)%nat.
Proof.
  intros k H. induction a as [| c a IH]; simpl; [exact H |].
  now rewrite IH.
Qed.

Lemma to_uint_small (n : Z) : 0 <= n < 2 ^ 32 -> to_uint n = n.
Proof. intros H. unfold to_uint. now apply Z.mod_small. Qed.

Lemma to_uint_minus_one : to_uint (-1) = 2 ^ 32 - 1.
Proof. reflexivity. Qed.

(** [substring(a, b)] with both bounds inside the text. *)
Lemma substring_between (s : string) (a b : Z) :
  fits s -> 0 <= a <= b -> b <= len s ->
  substring s a b = take (Z.to_nat (b - a)) (drop (Z.to_nat a) s).
Proof.
  unfold fits. intros Hs Hab Hb. unfold substring.
  rewrite !to_uint_small by lia.
  destruct (b <? a) eqn:E; [apply Z.ltb_lt in E; lia |].
  destruct (len s <=? a) eqn:E1.
  - apply Z.leb_le in E1. replace (b - a) with 0 by lia.
    change (Z.to_nat 0) with O. now rewrite take_0.
  - destruct (len s <? b) eqn:E2; [apply Z.ltb_lt in E2; lia |].
    reflexivity.
Qed.

(** [substring(a, -1)]: the -1 of a failed search becomes the largest
    [unsigned int], and the text from [a] to the end comes back. *)
Lemma substring_to_end (s : string) (a : Z) :
  fits s -> 0 <= a <= len s ->
  substring s a (-1) = drop (Z.to_nat a) s.
Proof.
  unfold fits. intros Hs Ha. unfold substring.
  rewrite to_uint_minus_one. rewrite to_uint_small by lia.
  destruct (2 ^ 32 - 1 <? a) eqn:E; [apply Z.ltb_lt in E; lia |].
  destruct (len s <=? a) eqn:E1.
  - apply Z.leb_le in E1. symmetry. apply drop_all. unfold len in *. lia.
  - destruct (len s <? 2 ^ 32 - 1) eqn:E2; [| apply Z.ltb_ge in E2; lia].
    apply take_all. rewrite length_drop. unfold len in *. lia.
Qed.

(** The middle of three pieces. *)
Lemma substring_middle (a b c : string) :
  fits (a ++ b ++ c) ->
  substring (a ++ b ++ c) (len a) (len a + len b) = b.
Proof.
  intros Hs. pose proof (len_nonneg a). pose proof (len_nonneg b).
  pose proof (len_nonneg c).
  rewrite substring_between; try exact Hs; try lia.
  - replace (len a + len b - len a) with (len b) by lia.
    unfold len. rewrite !Nat2Z.id. rewrite drop_app. apply take_app.
  - rewrite !len_append. lia.
Qed.

(** [indexOf(ch, len p)] past a prefix [p]. *)
Lemma indexOf_from_prefix (p rest : string) (ch : ascii) :
  fits (p ++ rest) ->
  indexOf_from (p ++ rest) ch (len p) =
    match strchr rest ch with
    | Some k => len p + Z.of_nat k
    | None => -1
    end.
Proof.
  unfold fits. intros Hs. pose proof (len_nonneg p). pose proof (len_nonneg rest).
  rewrite len_append in Hs.
  unfold indexOf_from. rewrite to_uint_small by lia.
  rewrite len_append.
  destruct (len p + len rest <=? len p) eqn:E.
  - apply Z.leb_le in E. destruct rest; [reflexivity |].
    unfold len in E. cbn [String.length] in E. lia.
  - replace (Z.to_nat (len p)) with (String.length p) by (unfold len; lia).
    rewrite drop_app. reflexivity.
Qed.

(** [indexOf(ch)] when the prefix [p] holds no [ch]. *)
Lemma indexOf_prefix (p rest : string) (ch : ascii) :
  strchr p ch = None ->
  indexOf (p ++ rest) ch =
    match strchr rest ch with
    | Some k => len p + Z.of_nat k
    | None => -1
    end.
Proof.
  intros Hp. unfold indexOf, indexOf_from.
  change (to_uint 0) with 0.
  destruct (len (p ++ rest) <=? 0) eqn:E.
  - apply Z.leb_le in E. rewrite len_append in E.
    pose proof (len_nonneg p). destruct rest; [reflexivity |].
    unfold len in *. cbn [String.length] in E. lia.
  - simpl drop. rewrite strchr_app_r by exact Hp.
    destruct (strchr rest ch); [| reflexivity].
    unfold len. lia.
Qed.

Lemma substring_upto (p rest : string) (ch : ascii) (idx : Z) :
  fits (p ++ rest) ->
  idx = match strchr rest ch with
        | Some k => len p + Z.of_nat k
        | None => -1
        end ->
  substring (p ++ rest) (len p) idx = upto ch rest.
Proof.
  intros Hs ->. pose proof (len_nonneg p). pose proof (len_nonneg rest).
  unfold upto. destruct (strchr rest ch) as [k |] eqn:E.
  - pose proof (strchr_bound _ _ _ E) as Hk.
    rewrite substring_between; try exact Hs; try lia.
    + replace (len p + Z.of_nat k - len p) with (Z.of_nat k) by lia.
      unfold len. rewrite !Nat2Z.id. now rewrite drop_app.
    + rewrite len_append. unfold len. lia.
  - rewrite substring_to_end; try exact Hs.
    + unfold len. rewrite Nat2Z.id. apply drop_app.
    + rewrite len_append. lia.
Qed.

(** How a text splits around what [upto] returns. *)
Lemma upto_spec (ch : ascii) (rest : string) :
  strchr (upto ch rest) ch = None
  /\ (rest = upto ch rest
      \/ exists tail, rest = upto ch rest ++ String ch tail).
Proof.
  unfold upto. destruct (strchr rest ch) as [k |] eqn:E.
  - destruct (strchr_split _ _ _ E) as [H1 H2].
    split; [exact H2 |]. right. now exists (drop (S k) rest).
  - split; [exact E | now left].
Qed.

Lemma upto_app (ch : ascii) (x tail : string) :
  strchr x ch = None -> upto ch (x ++ String ch tail) = x.
Proof.
  intros Hx. unfold upto. rewrite strchr_app_r by exact Hx.
  rewrite strchr_here. rewrite Nat.add_0_r. apply take_app.
Qed.

Lemma upto_none (ch : ascii) (x : string) :
  strchr x ch = None -> upto ch x = x.
Proof. intros Hx. unfold upto. now rewrite Hx. Qed.

End WStringFacts.

(** ** Decimal text: printing an [int] and reading it back *)

Module DecimalFacts.
Import WString WStringFacts.

Lemma utoa_loop_step (fuel : nat) (n base : Z) (acc : string) :
  utoa_loop (S fuel) n base acc =
    if n / base =? 0 then String (digit_char (n mod base)) acc
    else utoa_loop fuel (n / base) base (String (digit_char (n mod base)) acc).
Proof. reflexivity. Qed.

Lemma byte_of_ascii_of_N (n : Z) :
  0 <= n < 256 -> byte_of (ascii_of_N (Z.to_N n)) = n.
Proof.
  intros Hn. unfold byte_of. rewrite N_ascii_embedding by lia. lia.
Qed.

Lemma digit_char_decimal (d : Z) :
  0 <= d < 10 ->
  isdigit (digit_char d) = true /\ byte_of (digit_char d) - 48 = d.
Proof.
  intros Hd. unfold digit_char, isdigit.
  destruct (d <? 10) eqn:E; [| apply Z.ltb_ge in E; lia].
  rewrite byte_of_ascii_of_N by lia. split; [| lia].
  apply andb_true_iff. split; apply Z.leb_le; lia.
Qed.

Lemma all_digits_app (x y : string) :
  all_digits (x ++ y) = all_digits x && all_digits y.
Proof.
  induction x as [| c x IH]; simpl; [reflexivity |].
  rewrite IH. now rewrite andb_assoc.
Qed.

Lemma digits_value_app (x y : string) :
  forall v, all_digits x = true ->
    digits_value (x ++ y) v = digits_value y (digits_value x v).
Proof.
  induction x as [| c x IH]; intros v H; simpl in *; [reflexivity |].
  apply andb_true_iff in H as [Hc Hx]. rewrite Hc. now apply IH.
Qed.

(** The digits are pushed in front of what is already there. *)
Lemma utoa_loop_acc (fuel : nat) :
  forall n acc,
    utoa_loop fuel n 10 acc = utoa_loop fuel n 10 EmptyString ++ acc.
Proof.
  induction fuel as [| fuel IH]; intros n acc; [reflexivity |].
  cbn [utoa_loop]. destruct (n / 10 =? 0); [reflexivity |].
  rewrite IH. rewrite (IH _ (String _ EmptyString)).
  now rewrite append_assoc.
Qed.

Lemma one_digit (n : Z) :
  0 <= n < 10 ->
  let text := String (digit_char (n mod 10)) EmptyString in
  all_digits text = true /\ digits_value text 0 = n /\ text <> EmptyString.
Proof.
  intros Hn text. unfold text. rewrite Z.mod_small by lia.
  destruct (digit_char_decimal n Hn) as [Hd Hv].
  simpl. rewrite Hd. repeat split; [lia | discriminate].
Qed.

(** With enough fuel the loop writes decimal digits only, at least
    one, and they read back as the number. *)
Lemma utoa_loop_decimal (fuel : nat) :
  forall n, 0 <= n < 10 ^ Z.of_nat (S fuel) ->
    let text := utoa_loop (S fuel) n 10 EmptyString in
    all_digits text = true
    /\ digits_value text 0 = n
    /\ text <> EmptyString.
Proof.
  induction fuel as [| fuel IH]; intros n Hn text; unfold text.
  - change (10 ^ Z.of_nat 1) with 10 in Hn. cbn [utoa_loop].
    rewrite Z.div_small by lia. change (0 =? 0) with true. cbv iota.
    now apply one_digit.
  - assert (Hpow : 10 ^ Z.of_nat (S (S fuel)) = 10 * 10 ^ Z.of_nat (S fuel)).
    { rewrite (Nat2Z.inj_succ (S fuel)). rewrite Z.pow_succ_r by lia. reflexivity. }
    rewrite utoa_loop_step.
    destruct (n / 10 =? 0) eqn:E.
    + apply Z.eqb_eq in E. apply one_digit.
      pose proof (Z.div_mod n 10). pose proof (Z.mod_pos_bound n 10). lia.
    + apply Z.eqb_neq in E.
      assert (Hq : 0 <= n / 10 < 10 ^ Z.of_nat (S fuel)).
      { split; [apply Z.div_pos; lia |].
        apply Z.div_lt_upper_bound; lia. }
      destruct (IH _ Hq) as [Hall [Hval Hne]].
      rewrite utoa_loop_acc.
      assert (Hr : 0 <= n mod 10 < 10) by (apply Z.mod_pos_bound; lia).
      destruct (digit_char_decimal _ Hr) as [Hd Hv].
      split; [| split].
      * rewrite all_digits_app, Hall. simpl. now rewrite Hd.
      * rewrite digits_value_app by exact Hall. rewrite Hval. simpl.
        rewrite Hd. pose proof (Z.div_mod n 10). lia.
      * intros Hempty. apply Hne.
        destruct (utoa_loop (S fuel) (n / 10) 10 EmptyString); [reflexivity | discriminate].
Qed.

Lemma utoa_decimal (n : Z) :
  0 <= n < 2 ^ 32 ->
  all_digits (utoa n DEC) = true
  /\ digits_value (utoa n DEC) 0 = n
  /\ utoa n DEC <> EmptyString.
Proof.
  intros Hn. unfold utoa, DEC. apply (utoa_loop_decimal 31 n).
  assert (2 ^ 32 < 10 ^ Z.of_nat 32) by reflexivity. lia.
Qed.

Lemma digit_not_sign_or_space (c : ascii) :
  isdigit c = true ->
  isspace c = false
  /\ Ascii.eqb c "-"%char = false
  /\ Ascii.eqb c "+"%char = false.
Proof.
  unfold isdigit, isspace. intros H.
  apply andb_true_iff in H as [H1 H2].
  apply Z.leb_le in H1. apply Z.leb_le in H2.
  split; [| split].
  - apply orb_false_iff. split; [apply Z.eqb_neq; lia |].
    apply andb_false_iff. right. apply Z.leb_gt. lia.
  - apply Ascii.eqb_neq. intros ->. compute in H1. now apply H1.
  - apply Ascii.eqb_neq. intros ->. compute in H1. now apply H1.
Qed.

Lemma to_int32_small (n : Z) : - 2 ^ 31 <= n < 2 ^ 31 -> to_int32 n = n.
Proof.
  intros Hn. unfold to_int32. rewrite Z.mod_small by lia. lia.
Qed.

Lemma digits_value_nonneg (s : string) :
  forall acc, 0 <= acc -> 0 <= digits_value s acc.
Proof.
  induction s as [| c s IH]; intros acc Hacc; simpl; [exact Hacc |].
  destruct (isdigit c) eqn:E; [| exact Hacc].
  apply IH. unfold isdigit in E. apply andb_true_iff in E as [E1 _].
  apply Z.leb_le in E1. lia.
Qed.

(** Reading back what [print] wrote for an [int]. *)
Lemma toInt_print_int (n : Z) :
  - 2 ^ 31 <= n < 2 ^ 31 -> to_int32 (toInt (print_int n)) = n.
Proof.
  intros Hn. rewrite to_int32_small.
  - unfold toInt, atol, print_int, LONG_MAX, LONG_MIN.
    destruct (n <? 0) eqn:E.
    + apply Z.ltb_lt in E.
      rewrite to_uint_small by lia.
      destruct (utoa_decimal (- n)) as [_ [Hval _]]; [lia |].
      cbn [skip_space]. change (isspace "-") with false. cbv iota.
      change (Ascii.eqb "-" "-") with true. cbv iota.
      rewrite Hval. lia.
    + apply Z.ltb_ge in E.
      rewrite to_uint_small by lia.
      destruct (utoa_decimal n) as [Hall [Hval Hne]]; [lia |].
      destruct (utoa n DEC) as [| c rest] eqn:Htext; [now elim Hne |].
      simpl in Hall. apply andb_true_iff in Hall as [Hc Hrest].
      destruct (digit_not_sign_or_space c Hc) as [Hsp [Hminus Hplus]].
      cbn [skip_space]. rewrite Hsp, Hminus, Hplus. rewrite Hval. lia.
  - unfold toInt, atol, LONG_MAX, LONG_MIN.
    destruct (skip_space (print_int n)) as [| c rest]; [lia |].
    pose proof (digits_value_nonneg rest 0).
    pose proof (digits_value_nonneg (String c rest) 0).
    destruct (Ascii.eqb c "-"); [lia |].
    destruct (Ascii.eqb c "+"); lia.
Qed.
End DecimalFacts.

(** ** The command interpreter *)

Section Interpreter.

Context {P : Platform}.
Import WString WStringFacts DecimalFacts.

Lemma serial_println (text : string) (st : State) :
  serial (Serial_println text st) = serial st ++ text ++ CRLF.
Proof. unfold Serial_println, Serial_print. simpl. apply append_assoc. Qed.

(** A line that starts with one of the six prefixes starts with none
    of the other five, so the order of the tests never matters. *)
Ltac other_prefixes Hline :=
  repeat match goal with
    | |- context [startsWith ?l ?p] =>
        let E := fresh "E" in
        assert (E : startsWith l p = false) by (rewrite Hline; reflexivity);
        rewrite E; clear E
    end.

(** C6. A line that starts with none of [<SET|], [<TXMODE>],
    [<RXMODE>], [<RX_READY>], [<FILE|], [<DATA|] leaves the whole
    state as it was: nothing is written to the serial port, no radio
    call is made, and [transmitMode], [currentFreq] and the queue keep
    their values. *)
Theorem unrecognized_line_ignored :
  forall (command : string) (st : State),
    startsWith command "<SET|" = false ->
    startsWith command "<TXMODE>" = false ->
    startsWith command "<RXMODE>" = false ->
    startsWith command "<RX_READY>" = false ->
    startsWith command "<FILE|" = false ->
    startsWith command "<DATA|" = false ->
    handleRadioCommand command st = st
    /\ serial (handleRadioCommand command st) = serial st
    /\ transmitMode (handleRadioCommand command st) = transmitMode st
    /\ currentFreq (handleRadioCommand command st) = currentFreq st
    /\ packetQueue (handleRadioCommand command st) = packetQueue st.
Proof.
  intros command st H1 H2 H3 H4 H5 H6.
  assert (H : handleRadioCommand command st = st).
  { unfold handleRadioCommand. now rewrite H1, H2, H3, H4, H5, H6. }
  rewrite H. repeat split; reflexivity.
Qed.

(** C10. A line that starts with [<DATA|] writes nothing to the serial
    port and changes nothing but the queue, to which it offers one
    payload: the text after the six characters of the prefix up to
    the first [>], or all of that text when the line holds no [>].
    Unless the queue is full the payload becomes its tail. *)
Theorem data_command_enqueues :
  forall (command : string) (st : State),
    fits command ->
    startsWith command "<DATA|" = true ->
    let payload := upto ">" (drop 6 command) in
    let st' := handleRadioCommand command st in
    st' = set_packetQueue (ArduinoQueue.enqueue payload (packetQueue st)) st
    /\ serial st' = serial st
    /\ radio st' = radio st
    /\ strchr payload ">" = None
    /\ (command = "<DATA|" ++ payload
        \/ exists tail, command = "<DATA|" ++ payload ++ ">" ++ tail)
    /\ (strchr command ">" = None -> payload = drop 6 command)
    /\ (ArduinoQueue.count (packetQueue st) <> ArduinoQueue.maxItems (packetQueue st) ->
        ArduinoQueue.items (packetQueue st')
        = (ArduinoQueue.items (packetQueue st) ++ [payload])%list).
Proof.
  intros command st Hfits Hdata payload st'.
  pose proof (startsWith_inv _ _ Hdata) as Hline.
  change (String.length "<DATA|") with 6%nat in Hline.
  assert (Hst : st' = set_packetQueue
                        (ArduinoQueue.enqueue payload (packetQueue st)) st).
  { unfold st', handleRadioCommand. other_prefixes Hline. rewrite Hdata.
    f_equal. f_equal. unfold payload.
    rewrite Hline at 1 2. rewrite Hline in Hfits.
    change 6 with (len "<DATA|").
    apply substring_upto; [exact Hfits |].
    apply indexOf_prefix. reflexivity. }
  destruct (upto_spec ">" (drop 6 command)) as [Hnone Hsplit].
  split; [exact Hst |]. rewrite Hst.
  split; [reflexivity |]. split; [reflexivity |].
  split; [exact Hnone |].
  split.
  { destruct Hsplit as [Hs | [tail Hs]].
    - left. rewrite Hline at 1. now rewrite Hs at 1.
    - right. exists tail. rewrite Hline at 1. now rewrite Hs at 1. }
  split.
  { intros Hno. unfold payload. apply upto_none.
    rewrite Hline in Hno.
    rewrite strchr_app_r in Hno by reflexivity.
    now destruct (strchr (drop 6 command) ">"). }
  intros Hroom. simpl. unfold ArduinoQueue.enqueue.
  destruct (ArduinoQueue.count (packetQueue st) =? ArduinoQueue.maxItems (packetQueue st)) eqn:E.
  - apply Z.eqb_eq in E. contradiction.
  - reflexivity.
Qed.

(** C5, as the code has it.  A line that starts with [<SET|] has the
    text after the five characters of the prefix, up to the first
    comma, handed to the text-to-float conversion; the result is stored
    in [currentFreq] and given to the radio's [setFrequency], and the
    one line [<STATUS|FREQ_SET>] is written; mode and queue are
    untouched.  The line [<SET|433.92,x>] stores the float read from
    [433.92].  The text is never checked: whatever it is, the value
    stored is what the conversion returns for it, and the output is the
    same single status line as for any other [<SET|] line, with no
    error report. *)
Theorem set_command_sets_frequency :
  forall (command : string) (st : State),
    fits command ->
    startsWith command "<SET|" = true ->
    let number := upto "," (drop 5 command) in
    let st' := handleRadioCommand command st in
    st' = mkState (transmitMode st) (atof number) (packetQueue st)
                  (serial st ++ "<STATUS|FREQ_SET>" ++ CRLF)
                  (radio st ++ [SetFrequency (atof number)])%list
    /\ strchr number "," = None
    /\ (command = "<SET|" ++ number
        \/ exists tail, command = "<SET|" ++ number ++ "," ++ tail)
    /\ currentFreq (handleRadioCommand "<SET|433.92,x>" st) = atof "433.92"
    /\ (forall other : string,
          startsWith other "<SET|" = true ->
          serial (handleRadioCommand other st) = serial st'
          /\ transmitMode (handleRadioCommand other st) = transmitMode st'
          /\ packetQueue (handleRadioCommand other st) = packetQueue st').
Proof.
  intros command st Hfits Hset number st'.
  pose proof (startsWith_inv _ _ Hset) as Hline.
  change (String.length "<SET|") with 5%nat in Hline.
  assert (Hnum : substring command 5 (indexOf command ",") = number).
  { unfold number. rewrite Hline at 1 2. rewrite Hline in Hfits.
    change 5 with (len "<SET|").
    apply substring_upto; [exact Hfits |].
    apply indexOf_prefix. reflexivity. }
  assert (Hst : st' = mkState (transmitMode st) (atof number) (packetQueue st)
                        (serial st ++ "<STATUS|FREQ_SET>" ++ CRLF)
                        (radio st ++ [SetFrequency (atof number)])%list).
  { unfold st', handleRadioCommand. rewrite Hset, Hnum.
    unfold Serial_println, Serial_print, radio_call, set_currentFreq. simpl.
    now rewrite append_assoc. }
  destruct (upto_spec "," (drop 5 command)) as [Hnone Hsplit].
  split; [exact Hst |]. rewrite Hst.
  split; [exact Hnone |].
  split.
  { destruct Hsplit as [Hs | [tail Hs]].
    - left. rewrite Hline at 1. now rewrite Hs at 1.
    - right. exists tail. rewrite Hline at 1. now rewrite Hs at 1. }
  split; [reflexivity |].
  intros other Hother. unfold handleRadioCommand. rewrite Hother.
  unfold Serial_println, Serial_print, radio_call, set_currentFreq. simpl.
  split; [now rewrite append_assoc | split; reflexivity].
Qed.

Lemma handleRadioCommand_mode (command : string) (st : State) :
  transmitMode (handleRadioCommand command st) =
    if startsWith command "<TXMODE>" then true
    else if startsWith command "<RXMODE>" then false
    else transmitMode st.
Proof.
  unfold handleRadioCommand.
  destruct (startsWith command "<SET|") eqn:Eset.
  { pose proof (startsWith_inv _ _ Eset) as Hline.
    other_prefixes Hline. reflexivity. }
  destruct (startsWith command "<TXMODE>"); [reflexivity |].
  destruct (startsWith command "<RXMODE>"); [reflexivity |].
  destruct (startsWith command "<RX_READY>"); [reflexivity |].
  destruct (startsWith command "<FILE|").
  { destruct (file_fields command) as [[f t] z]. reflexivity. }
  destruct (startsWith command "<DATA|"); reflexivity.
Qed.

Lemma handleTransmission_mode (transmit : string -> Z) (st : State) :
  transmitMode (handleTransmission transmit st) = transmitMode st.
Proof.
  unfold handleTransmission.
  destruct (ArduinoQueue.isEmpty (packetQueue st)); [reflexivity |]. simpl.
  destruct (ArduinoQueue.dequeue (packetQueue st)) as [packet q].
  destruct (transmit packet =? RADIOLIB_ERR_NONE); reflexivity.
Qed.

Lemma handleRadioCommands_keep_mode (commands : list string) :
  forall st, Forall keeps_mode commands ->
    transmitMode (handleRadioCommands commands st) = transmitMode st.
Proof.
  induction commands as [| c rest IH]; intros st Hall; [reflexivity |].
  inversion Hall as [| ? ? [Hrx Htx] Hrest]; subst.
  unfold handleRadioCommands in *. simpl. rewrite IH by exact Hrest.
  rewrite handleRadioCommand_mode. now rewrite Htx, Hrx.
Qed.

Lemma run_keeps_TX (inputs : list LoopInput) :
  forall st,
    transmitMode st = true ->
    Forall (fun i => match line i with
                     | Some command => keeps_mode command
                     | None => True
                     end) inputs ->
    exists st', run inputs st = Some st' /\ transmitMode st' = true.
Proof.
  induction inputs as [| i rest IH]; intros st Hst Hall.
  - exists st. split; [reflexivity | exact Hst].
  - inversion Hall as [| ? ? Hi Hrest]; subst. simpl. unfold loop.
    set (st1 := match line i with
                | Some command => handleRadioCommand command st
                | None => st
                end).
    assert (H1 : transmitMode st1 = true).
    { unfold st1. destruct (line i) as [command |]; [| exact Hst].
      destruct Hi as [Hrx Htx].
      rewrite handleRadioCommand_mode. now rewrite Htx, Hrx. }
    rewrite H1. apply IH; [| exact Hrest].
    now rewrite handleTransmission_mode.
Qed.

(** C4. The mode flag starts as TX.  A line starting with [<RXMODE>]
    sets it to RX and appends the line [<STATUS|RX_MODE>] to the serial
    output; a line starting with [<TXMODE>] sets it to TX and appends
    [<STATUS|TX_MODE>]; neither changes anything else; every
    other line leaves it as it was.  So [<RXMODE>] followed by
    [<TXMODE>] ends in TX from any state, and from the initial state
    any sequence of lines with neither prefix ends in TX, also when
    each line is followed by the radio work of its turn of [loop]. *)
Theorem mode_flag_transitions :
  transmitMode initial_state = true
  /\ (forall command st,
        startsWith command "<RXMODE>" = true ->
        handleRadioCommand command st
        = mkState false (currentFreq st) (packetQueue st)
                  (serial st ++ "<STATUS|RX_MODE>" ++ CRLF) (radio st))
  /\ (forall command st,
        startsWith command "<TXMODE>" = true ->
        handleRadioCommand command st
        = mkState true (currentFreq st) (packetQueue st)
                  (serial st ++ "<STATUS|TX_MODE>" ++ CRLF) (radio st))
  /\ (forall command st,
        keeps_mode command ->
        transmitMode (handleRadioCommand command st) = transmitMode st)
  /\ (forall st,
        transmitMode (handleRadioCommands ["<RXMODE>"; "<TXMODE>"] st) = true)
  /\ (forall commands,
        Forall keeps_mode commands ->
        transmitMode (handleRadioCommands commands initial_state) = true)
  /\ (forall inputs,
        Forall (fun i => match line i with
                         | Some command => keeps_mode command
                         | None => True
                         end) inputs ->
        exists st', run inputs initial_state = Some st'
                    /\ transmitMode st' = true).
Proof.
  split; [reflexivity |].
  split.
  { intros command st H. pose proof (startsWith_inv _ _ H) as Hline.
    unfold handleRadioCommand. other_prefixes Hline. rewrite H.
    unfold Serial_println, Serial_print, set_transmitMode. simpl.
    now rewrite append_assoc. }
  split.
  { intros command st H. pose proof (startsWith_inv _ _ H) as Hline.
    unfold handleRadioCommand. other_prefixes Hline. rewrite H.
    unfold Serial_println, Serial_print, set_transmitMode. simpl.
    now rewrite append_assoc. }
  split.
  { intros command st [Hrx Htx]. rewrite handleRadioCommand_mode.
    now rewrite Htx, Hrx. }
  split; [intros st; reflexivity |].
  split.
  { intros commands Hall. now rewrite handleRadioCommands_keep_mode. }
  intros inputs Hall. now apply run_keeps_TX.
Qed.

Lemma lastIndexOf_last (a b : string) (ch : ascii) :
  fits (a ++ String ch b) ->
  strchr b ch = None ->
  lastIndexOf (a ++ String ch b) ch = len a.
Proof.
  unfold fits. intros Hs Hb. unfold lastIndexOf.
  pose proof (len_nonneg a). pose proof (len_nonneg b).
  assert (Hlen : len (a ++ String ch b) = len a + 1 + len b).
  { rewrite len_append. unfold len. cbn [String.length]. lia. }
  rewrite to_uint_small by lia.
  destruct (len (a ++ String ch b) <=? len (a ++ String ch b) - 1) eqn:E;
    [apply Z.leb_le in E; lia |].
  rewrite take_all by (unfold len; lia).
  rewrite (strrchr_app_r a (String ch b) ch O).
  - unfold len. f_equal. lia.
  - simpl. rewrite (strrchr_none _ _ Hb). now rewrite Ascii.eqb_refl.
Qed.

(** Where the delimiters of a well-formed [<FILE|] line are found. *)
Lemma file_line_delimiters (name totalText sizeText : string) :
  let command :=
    "<FILE|" ++ name ++ "|" ++ totalText ++ "|" ++ sizeText ++ ">" in
  fits command ->
  strchr name "|" = None ->
  strchr totalText "|" = None ->
  strchr sizeText "|" = None ->
  indexOf_from command "|" 6 = 6 + len name
  /\ lastIndexOf command "|" = 6 + len name + 1 + len totalText
  /\ (strchr name ">" = None ->
      strchr totalText ">" = None ->
      strchr sizeText ">" = None ->
      indexOf command ">" = 6 + len name + 1 + len totalText + 1 + len sizeText).
Proof.
  intros command Hfits Hname Htotal Hsize.
  split; [| split].
  - unfold command. change 6 with (len "<FILE|") at 1.
    rewrite indexOf_from_prefix by exact Hfits.
    rewrite strchr_app_r by exact Hname.
    change ("|" ++ totalText ++ "|" ++ sizeText ++ ">")
      with (String "|" (totalText ++ "|" ++ sizeText ++ ">")).
    rewrite strchr_here. unfold len. simpl String.length. lia.
  - assert (E : command = ("<FILE|" ++ name ++ "|" ++ totalText)
                            ++ String "|" (sizeText ++ ">")).
    { unfold command. now rewrite !append_assoc. }
    rewrite E. rewrite E in Hfits.
    rewrite lastIndexOf_last; [| exact Hfits |].
    + rewrite !len_append. unfold len. simpl String.length. lia.
    + apply strchr_app_none; [exact Hsize | reflexivity].
  - intros Gname Gtotal Gsize.
    assert (E : command = ("<FILE|" ++ name ++ "|" ++ totalText ++ "|")
                            ++ sizeText ++ ">").
    { unfold command. now rewrite !append_assoc. }
    rewrite E. rewrite indexOf_prefix.
    + rewrite strchr_app_r by exact Gsize.
      change (strchr ">" ">"%char) with (Some O).
      rewrite !len_append. unfold len. simpl String.length. lia.
    + apply (strchr_app_none "<FILE|"); [reflexivity |].
      apply strchr_app_none; [exact Gname |].
      apply (strchr_app_none "|"); [reflexivity |].
      apply strchr_app_none; [exact Gtotal | reflexivity].
Qed.

(** The fields cut out of a well-formed [<FILE|] line. *)
Lemma file_line_substrings (name totalText sizeText : string) :
  let command :=
    "<FILE|" ++ name ++ "|" ++ totalText ++ "|" ++ sizeText ++ ">" in
  fits command ->
  strchr name "|" = None ->
  strchr totalText "|" = None ->
  strchr sizeText "|" = None ->
  substring command 6 (indexOf_from command "|" 6) = name
  /\ substring command (indexOf_from command "|" 6 + 1)
               (lastIndexOf command "|") = totalText
  /\ (strchr name ">" = None ->
      strchr totalText ">" = None ->
      strchr sizeText ">" = None ->
      substring command (lastIndexOf command "|" + 1)
                (indexOf command ">") = sizeText).
Proof.
  intros command Hfits Hname Htotal Hsize.
  destruct (file_line_delimiters name totalText sizeText
              Hfits Hname Htotal Hsize) as [D1 [D2 D3]].
  fold command in D1, D2, D3.
  split; [| split].
  - rewrite D1. change 6 with (len "<FILE|").
    apply (substring_middle "<FILE|" name). exact Hfits.
  - rewrite D1, D2.
    assert (E : command = ("<FILE|" ++ name ++ "|")
                            ++ totalText ++ ("|" ++ sizeText ++ ">")).
    { unfold command. now rewrite !append_assoc. }
    replace (6 + len name + 1) with (len ("<FILE|" ++ name ++ "|")).
    + rewrite E. apply substring_middle. rewrite <- E. exact Hfits.
    + rewrite !len_append. unfold len. simpl String.length. lia.
  - intros Gname Gtotal Gsize. rewrite D2, (D3 Gname Gtotal Gsize).
    assert (E : command = ("<FILE|" ++ name ++ "|" ++ totalText ++ "|")
                            ++ sizeText ++ ">").
    { unfold command. now rewrite !append_assoc. }
    replace (6 + len name + 1 + len totalText + 1)
      with (len ("<FILE|" ++ name ++ "|" ++ totalText ++ "|")).
    + rewrite E. apply substring_middle. rewrite <- E. exact Hfits.
    + rewrite !len_append. unfold len. simpl String.length. lia.
Qed.

(** What any line starting with [<FILE|] does. *)
Lemma handleRadioCommand_file (command : string) (st : State) :
  startsWith command "<FILE|" = true ->
  handleRadioCommand command st =
    mkState (transmitMode st) (currentFreq st) (packetQueue st)
            (serial st ++ "<STATUS|FILE_START|"
                       ++ fst (fst (file_fields command)) ++ "|"
                       ++ print_int (snd (fst (file_fields command)))
                       ++ ">" ++ CRLF)
            (radio st).
Proof.
  intros Hfile. pose proof (startsWith_inv _ _ Hfile) as Hline.
  unfold handleRadioCommand. other_prefixes Hline. rewrite Hfile.
  destruct (file_fields command) as [[filename total] size].
  unfold Serial_println, Serial_print. simpl.
  now rewrite !append_assoc.
Qed.

(** C8. A line [<FILE|<name>|<total>|<size>>] whose three fields hold
    no [|] has its name taken from between the prefix and the next
    [|] and its total read as an integer from between that [|] and
    the last one; when the fields hold no [>] either, the size is the
    integer between the last [|] and the [>].  The line writes
    [<STATUS|FILE_START|<name>|<total>>], the total being printed as
    the integer that was read, so a total written the way [print]
    writes an [int] comes back unchanged.  Nothing else happens: no value is checked
    and mode, frequency, queue and radio are untouched, as for any
    line starting with [<FILE|]. *)
Theorem file_command_echoes_name_and_total :
  forall (name totalText sizeText : string) (st : State),
    let command :=
      "<FILE|" ++ name ++ "|" ++ totalText ++ "|" ++ sizeText ++ ">" in
    fits command ->
    strchr name "|" = None ->
    strchr totalText "|" = None ->
    strchr sizeText "|" = None ->
    let total := to_int32 (toInt totalText) in
    let st' := handleRadioCommand command st in
    st' = mkState (transmitMode st) (currentFreq st) (packetQueue st)
                  (serial st ++ "<STATUS|FILE_START|" ++ name ++ "|"
                             ++ print_int total ++ ">" ++ CRLF)
                  (radio st)
    /\ (strchr name ">" = None ->
        strchr totalText ">" = None ->
        strchr sizeText ">" = None ->
        file_fields command = (name, total, to_int32 (toInt sizeText)))
    /\ (forall n : Z,
          - 2 ^ 31 <= n < 2 ^ 31 ->
          totalText = print_int n ->
          serial st' = serial st ++ "<STATUS|FILE_START|" ++ name ++ "|"
                                 ++ totalText ++ ">" ++ CRLF)
    /\ (forall (other : string) (st0 : State),
          startsWith other "<FILE|" = true ->
          let st1 := handleRadioCommand other st0 in
          transmitMode st1 = transmitMode st0
          /\ currentFreq st1 = currentFreq st0
          /\ packetQueue st1 = packetQueue st0
          /\ radio st1 = radio st0).
Proof.
  intros name totalText sizeText st command Hfits Hname Htotal Hsize total st'.
  destruct (file_line_substrings name totalText sizeText
              Hfits Hname Htotal Hsize) as [S1 [S2 S3]].
  fold command in S1, S2, S3.
  assert (Hst : st' = mkState (transmitMode st) (currentFreq st) (packetQueue st)
                        (serial st ++ "<STATUS|FILE_START|" ++ name ++ "|"
                                   ++ print_int total ++ ">" ++ CRLF)
                        (radio st)).
  { unfold st'. rewrite handleRadioCommand_file by apply startsWith_app.
    unfold file_fields. cbn [fst snd]. now rewrite S1, S2. }
  split; [exact Hst |].
  split.
  { intros Gname Gtotal Gsize. unfold file_fields.
    now rewrite S1, S2, (S3 Gname Gtotal Gsize). }
  split.
  { intros n Hn Htext. rewrite Hst. cbn [serial]. unfold total.
    rewrite Htext. now rewrite toInt_print_int. }
  intros other st0 Hother st1. unfold st1.
  rewrite handleRadioCommand_file by exact Hother. repeat split.
Qed.

End Interpreter.

(** ** The outbound queue and its retry policy *)

Section Transmission.

Context {P : Platform}.
Import WStringFacts.

Lemma handleReception_keeps_queue (rx : Z * string) (st st' : State) :
  handleReception rx st = Some st' -> packetQueue st' = packetQueue st.
Proof.
  destruct rx as [state received]. unfold handleReception.
  destruct (state =? RADIOLIB_ERR_NONE).
  - destruct (deserializeJson received) as [doc | error].
    + destruct (strlcpy (as_cstr doc "type") 8); [| discriminate].
      destruct (strlcpy (as_cstr doc "filename") 32); [| discriminate].
      destruct (strlcpy (as_cstr doc "checksum") 3); [| discriminate].
      match goal with |- context [negb ?b] => destruct b end; simpl;
        intros H; injection H as <-; reflexivity.
    + intros H; injection H as <-; reflexivity.
  - intros H; injection H as <-; reflexivity.
Qed.

(** One attempt on a queue with head [head]: the head is handed to
    the radio, and the answer decides between dropping it and putting
    it back at the tail. *)
Lemma handleTransmission_head (transmit : string -> Z) (st : State)
      (head : string) (rest : list string) :
  ArduinoQueue.wf (packetQueue st) ->
  ArduinoQueue.items (packetQueue st) = head :: rest ->
  handleTransmission transmit st =
    if transmit head =? RADIOLIB_ERR_NONE then
      mkState (transmitMode st) (currentFreq st)
              (ArduinoQueue.mk rest (ArduinoQueue.maxItems (packetQueue st)))
              (serial st ++ "<STATUS|TX_SUCCESS>" ++ CRLF)
              (radio st ++ [Transmit head])%list
    else
      mkState (transmitMode st) (currentFreq st)
              (ArduinoQueue.mk (rest ++ [head])%list
                               (ArduinoQueue.maxItems (packetQueue st)))
              (serial st ++ "<STATUS|TX_FAIL>" ++ CRLF)
              (radio st ++ [Transmit head])%list.
Proof.
  intros Hwf Hitems. unfold handleTransmission.
  unfold ArduinoQueue.isEmpty, ArduinoQueue.dequeue. rewrite Hitems. simpl.
  destruct (transmit head =? RADIOLIB_ERR_NONE).
  - unfold Serial_println, Serial_print, radio_call, set_packetQueue. simpl.
    now rewrite append_assoc.
  - unfold Serial_println, Serial_print, radio_call, set_packetQueue. simpl.
    unfold ArduinoQueue.enqueue, ArduinoQueue.count. simpl.
    unfold ArduinoQueue.wf, ArduinoQueue.count in Hwf. rewrite Hitems in Hwf.
    cbn [List.length] in Hwf.
    destruct (Z.of_nat (List.length rest) =? ArduinoQueue.maxItems (packetQueue st)) eqn:E.
    + apply Z.eqb_eq in E. lia.
    + now rewrite append_assoc.
Qed.

Lemma handleTransmission_empty (transmit : string -> Z) (st : State) :
  ArduinoQueue.items (packetQueue st) = [] ->
  handleTransmission transmit st = st.
Proof.
  intros Hitems. unfold handleTransmission, ArduinoQueue.isEmpty.
  now rewrite Hitems.
Qed.

(** The capacity invariant of the queue holds initially and is kept
    by every operation of the gateway. *)
Lemma initial_state_wf : ArduinoQueue.wf (packetQueue initial_state).
Proof. unfold ArduinoQueue.wf, ArduinoQueue.count. simpl. lia. Qed.

Lemma enqueue_wf (item : string) (q : ArduinoQueue.t) :
  ArduinoQueue.wf q -> ArduinoQueue.wf (ArduinoQueue.enqueue item q).
Proof.
  unfold ArduinoQueue.wf, ArduinoQueue.enqueue, ArduinoQueue.count. intros H.
  destruct (Z.of_nat (List.length (ArduinoQueue.items q)) =? ArduinoQueue.maxItems q) eqn:E.
  - exact H.
  - apply Z.eqb_neq in E. simpl. rewrite length_app. simpl. lia.
Qed.

Lemma handleTransmission_wf (transmit : string -> Z) (st : State) :
  ArduinoQueue.wf (packetQueue st) ->
  ArduinoQueue.wf (packetQueue (handleTransmission transmit st)).
Proof.
  intros Hwf.
  destruct (ArduinoQueue.items (packetQueue st)) as [| head rest] eqn:Hitems.
  - now rewrite handleTransmission_empty.
  - rewrite (handleTransmission_head _ _ _ _ Hwf Hitems).
    unfold ArduinoQueue.wf, ArduinoQueue.count in *. rewrite Hitems in Hwf.
    cbn [List.length] in Hwf.
    destruct (transmit head =? RADIOLIB_ERR_NONE); simpl.
    + lia.
    + rewrite length_app. simpl. lia.
Qed.

Lemma handleRadioCommand_wf (command : string) (st : State) :
  ArduinoQueue.wf (packetQueue st) ->
  ArduinoQueue.wf (packetQueue (handleRadioCommand command st)).
Proof.
  intros Hwf. unfold handleRadioCommand.
  destruct (WString.startsWith command "<SET|"); [exact Hwf |].
  destruct (WString.startsWith command "<TXMODE>"); [exact Hwf |].
  destruct (WString.startsWith command "<RXMODE>"); [exact Hwf |].
  destruct (WString.startsWith command "<RX_READY>"); [exact Hwf |].
  destruct (WString.startsWith command "<FILE|").
  { destruct (file_fields command) as [[f t] z]. exact Hwf. }
  destruct (WString.startsWith command "<DATA|"); [| exact Hwf].
  simpl. now apply enqueue_wf.
Qed.

(** So the invariant holds in every state the gateway reaches. *)
Lemma run_wf (inputs : list LoopInput) :
  forall st st',
    ArduinoQueue.wf (packetQueue st) ->
    run inputs st = Some st' ->
    ArduinoQueue.wf (packetQueue st').
Proof.
  induction inputs as [| i rest IH]; intros st st' Hwf Hrun; simpl in Hrun.
  - injection Hrun as <-. exact Hwf.
  - destruct (loop i st) as [st1 |] eqn:Hloop; [| discriminate].
    apply (IH st1 st'); [| exact Hrun].
    unfold loop in Hloop.
    set (st0 := match line i with
                | Some command => handleRadioCommand command st
                | None => st
                end) in *.
    assert (H0 : ArduinoQueue.wf (packetQueue st0)).
    { unfold st0. destruct (line i); [now apply handleRadioCommand_wf | exact Hwf]. }
    destruct (transmitMode st0).
    + injection Hloop as <-. now apply handleTransmission_wf.
    + destruct (handleReception_keeps_queue _ _ _ Hloop). exact H0.
Qed.

(** C9. One transmission attempt never lengthens the queue.  On an
    empty queue it changes nothing at all; when the radio accepts the
    head the queue loses exactly that entry; when the radio fails the
    queue keeps its size and its entries, the former head now being
    the tail. *)
Theorem transmission_never_grows_queue :
  forall (transmit : string -> Z) (st : State),
    ArduinoQueue.wf (packetQueue st) ->
    let q := packetQueue st in
    let q' := packetQueue (handleTransmission transmit st) in
    ArduinoQueue.count q' <= ArduinoQueue.count q
    /\ (ArduinoQueue.items q = [] -> handleTransmission transmit st = st)
    /\ (forall head rest,
          ArduinoQueue.items q = head :: rest ->
          transmit head = RADIOLIB_ERR_NONE ->
          ArduinoQueue.items q' = rest
          /\ ArduinoQueue.count q' = ArduinoQueue.count q - 1)
    /\ (forall head rest,
          ArduinoQueue.items q = head :: rest ->
          transmit head <> RADIOLIB_ERR_NONE ->
          ArduinoQueue.items q' = (rest ++ [head])%list
          /\ ArduinoQueue.count q' = ArduinoQueue.count q
          /\ Permutation (ArduinoQueue.items q) (ArduinoQueue.items q')).
Proof.
  intros transmit st Hwf q q'.
  assert (Hok : forall head rest,
             ArduinoQueue.items q = head :: rest ->
             transmit head = RADIOLIB_ERR_NONE ->
             ArduinoQueue.items q' = rest
             /\ ArduinoQueue.count q' = ArduinoQueue.count q - 1).
  { intros head rest Hitems Hres. unfold q, q', ArduinoQueue.count in *.
    rewrite (handleTransmission_head _ _ _ _ Hwf Hitems).
    rewrite Hres. simpl. rewrite Hitems.
    cbn [List.length]. split; [reflexivity | lia]. }
  assert (Hfail : forall head rest,
             ArduinoQueue.items q = head :: rest ->
             transmit head <> RADIOLIB_ERR_NONE ->
             ArduinoQueue.items q' = (rest ++ [head])%list
             /\ ArduinoQueue.count q' = ArduinoQueue.count q
             /\ Permutation (ArduinoQueue.items q) (ArduinoQueue.items q')).
  { intros head rest Hitems Hres. unfold q, q', ArduinoQueue.count in *.
    rewrite (handleTransmission_head _ _ _ _ Hwf Hitems).
    apply Z.eqb_neq in Hres. rewrite Hres. simpl. rewrite Hitems.
    split; [reflexivity |]. split.
    - rewrite length_app. simpl. lia.
    - apply Permutation_cons_append. }
  split.
  { destruct (ArduinoQueue.items q) as [| head rest] eqn:Hitems.
    - unfold q'. rewrite handleTransmission_empty by exact Hitems.
      fold q. lia.
    - destruct (Z.eq_dec (transmit head) RADIOLIB_ERR_NONE) as [E | E].
      + destruct (Hok head rest eq_refl E) as [_ Hc]. lia.
      + destruct (Hfail head rest eq_refl E) as [_ [Hc _]]. lia. }
  split; [apply handleTransmission_empty |].
  split; [exact Hok | exact Hfail].
Qed.

(** C3. An attempt on a queue with head [head] removes the head and
    hands it to the radio; if the radio fails, the same payload goes
    back in at the tail and [<STATUS|TX_FAIL>] is written.  Hence,
    from the queue [A, B], when the first attempt (on [A]) fails and
    the next two (on [B], then on [A] again) succeed, the serial
    port shows [TX_FAIL], [TX_SUCCESS], [TX_SUCCESS] in that order,
    the radio was handed [A], [B], [A], and the queue ends empty. *)
Theorem failed_payload_retries_at_tail :
  (forall (transmit : string -> Z) (st : State) head rest,
      ArduinoQueue.wf (packetQueue st) ->
      ArduinoQueue.items (packetQueue st) = head :: rest ->
      let st' := handleTransmission transmit st in
      radio st' = (radio st ++ [Transmit head])%list
      /\ (transmit head <> RADIOLIB_ERR_NONE ->
          ArduinoQueue.items (packetQueue st') = (rest ++ [head])%list
          /\ serial st' = serial st ++ "<STATUS|TX_FAIL>" ++ CRLF)
      /\ (transmit head = RADIOLIB_ERR_NONE ->
          ArduinoQueue.items (packetQueue st') = rest
          /\ serial st' = serial st ++ "<STATUS|TX_SUCCESS>" ++ CRLF))
  /\ (forall (A B : string) (first second third : string -> Z) (st : State),
        ArduinoQueue.wf (packetQueue st) ->
        ArduinoQueue.items (packetQueue st) = [A; B] ->
        first A <> RADIOLIB_ERR_NONE ->
        second B = RADIOLIB_ERR_NONE ->
        third A = RADIOLIB_ERR_NONE ->
        let st' := attempts [first; second; third] st in
        serial st' = serial st ++ "<STATUS|TX_FAIL>" ++ CRLF
                               ++ "<STATUS|TX_SUCCESS>" ++ CRLF
                               ++ "<STATUS|TX_SUCCESS>" ++ CRLF
        /\ radio st' = (radio st ++ [Transmit A; Transmit B; Transmit A])%list
        /\ ArduinoQueue.items (packetQueue st') = []).
Proof.
  split.
  - intros transmit st head rest Hwf Hitems st'. unfold st'.
    rewrite (handleTransmission_head _ _ _ _ Hwf Hitems).
    destruct (transmit head =? RADIOLIB_ERR_NONE) eqn:E; simpl.
    + apply Z.eqb_eq in E. split; [reflexivity |].
      split; [intros Hne; contradiction | intros _; now split].
    + apply Z.eqb_neq in E. split; [reflexivity |].
      split; [intros _; now split | intros He; contradiction].
  - intros A B first second third st Hwf Hitems H1 H2 H3 st'.
    unfold st'. simpl attempts.
    pose proof (handleTransmission_wf first st Hwf) as Hwf1.
    pose proof (handleTransmission_head first st A [B] Hwf Hitems) as E1.
    apply Z.eqb_neq in H1. rewrite H1 in E1.
    set (st1 := handleTransmission first st) in *.
    assert (Hitems1 : ArduinoQueue.items (packetQueue st1) = [B; A])
      by now rewrite E1.
    pose proof (handleTransmission_wf second st1 Hwf1) as Hwf2.
    pose proof (handleTransmission_head second st1 B [A] Hwf1 Hitems1) as E2.
    rewrite H2 in E2. simpl in E2.
    set (st2 := handleTransmission second st1) in *.
    assert (Hitems2 : ArduinoQueue.items (packetQueue st2) = [A])
      by now rewrite E2.
    pose proof (handleTransmission_head third st2 A [] Hwf2 Hitems2) as E3.
    rewrite H3 in E3. simpl in E3.
    rewrite E3, E2, E1. simpl.
    split; [now rewrite !append_assoc |].
    split; [| reflexivity].
    now rewrite <- !app_assoc.
Qed.

End Transmission.

(** ** The inbound packet decoder *)

Section Reception.

Context {P : Platform}.
Import WStringFacts DecimalFacts.

(** [String(value, HEX)] of a byte: lower-case digits and no padding,
    so one digit below 16 and two digits from 16 on. *)
Lemma String_of_uchar_HEX (n : Z) :
  0 <= n <= 255 ->
  String_of_uchar n HEX =
    if n <? 16 then String (digit_char n) EmptyString else two_hex_digits n.
Proof.
  intros Hn. unfold String_of_uchar, utoa, HEX, to_uint8.
  rewrite Z.mod_small by lia.
  change 32%nat with (S (S 30)). rewrite utoa_loop_step.
  destruct (n <? 16) eqn:E.
  - apply Z.ltb_lt in E. rewrite Z.div_small by lia.
    rewrite Z.mod_small by lia. reflexivity.
  - apply Z.ltb_ge in E.
    assert (Hq : 1 <= n / 16 < 16).
    { split.
      - apply Z.div_le_lower_bound; lia.
      - apply Z.div_lt_upper_bound; lia. }
    destruct (n / 16 =? 0) eqn:E0; [apply Z.eqb_eq in E0; lia |].
    rewrite utoa_loop_step.
    rewrite (Z.div_small (n / 16)) by lia.
    rewrite (Z.mod_small (n / 16)) by lia. reflexivity.
Qed.

(** Every path of [handleReception] that returns leaves mode,
    frequency and queue alone. *)
Lemma handleReception_frame (rx : Z * string) (st st' : State) :
  handleReception rx st = Some st' ->
  transmitMode st' = transmitMode st
  /\ currentFreq st' = currentFreq st
  /\ packetQueue st' = packetQueue st.
Proof.
  destruct rx as [state received]. unfold handleReception.
  destruct (state =? RADIOLIB_ERR_NONE).
  - destruct (deserializeJson received) as [doc | error].
    + destruct (strlcpy (as_cstr doc "type") 8); [| discriminate].
      destruct (strlcpy (as_cstr doc "filename") 32); [| discriminate].
      destruct (strlcpy (as_cstr doc "checksum") 3); [| discriminate].
      match goal with |- context [negb ?b] => destruct b end; simpl;
        intros H; injection H as <-; repeat split.
    + intros H; injection H as <-; repeat split.
  - intros H; injection H as <-; repeat split.
Qed.

(** What the decoder does with a parsed packet whose three text
    members are present. *)
Lemma handleReception_parsed (received : string) (doc : JsonDocument)
      (h_type h_filename declared : string) (st : State) :
  deserializeJson received = inl doc ->
  as_cstr doc "type" = Some h_type ->
  as_cstr doc "filename" = Some h_filename ->
  as_cstr doc "checksum" = Some declared ->
  handleReception (RADIOLIB_ERR_NONE, received) st =
    Some (mkState (transmitMode st) (currentFreq st) (packetQueue st)
            (if String.eqb
                  (String_of_uchar
                     (calculateChecksum char_is_signed (as_String doc "data")) HEX)
                  (WString.take 2 declared)
             then serial st ++ "<DATA|" ++ serializeJson doc ++ ">" ++ CRLF
             else serial st ++ "<STATUS|CHECKSUM_ERR>" ++ CRLF)
            (radio st ++ [Receive])%list).
Proof.
  intros Hdoc Htype Hfile Hsum. unfold handleReception.
  change (RADIOLIB_ERR_NONE =? RADIOLIB_ERR_NONE) with true. cbv iota.
  rewrite Hdoc, Htype, Hfile, Hsum. unfold strlcpy.
  change (Z.to_nat (3 - 1)) with 2%nat. cbn [checksum].
  destruct (String.eqb _ (WString.take 2 declared)); cbn [negb].
  - unfold Serial_println, Serial_print, radio_call. simpl.
    now rewrite !append_assoc.
  - unfold Serial_println, Serial_print, radio_call. simpl.
    now rewrite !append_assoc.
Qed.

Lemma append_inv_l (a x y : string) : a ++ x = a ++ y -> x = y.
Proof.
  induction a as [| c a IH]; simpl; intros H; [exact H |].
  injection H as H. now apply IH.
Qed.

(** C1, as the code has it.  A received packet that parses and has
    its [type], [filename] and [checksum] text members is written to
    the host as [<DATA|<serialized>>] exactly when the first two
    characters of its declared checksum equal [String(calcSum, HEX)]
    for the checksum of its data: the lower-case hexadecimal digits of
    the value without padding, one digit below 16 and two digits from
    16 on.  Otherwise [<STATUS|CHECKSUM_ERR>] is the only thing
    written and the packet is dropped; either way mode, frequency and
    queue are untouched. *)
Theorem checksum_gate_uses_unpadded_hex :
  forall (received : string) (doc : JsonDocument)
         (h_type h_filename c : string) (st : State),
    deserializeJson received = inl doc ->
    as_cstr doc "type" = Some h_type ->
    as_cstr doc "filename" = Some h_filename ->
    as_cstr doc "checksum" = Some c ->
    let value := calculateChecksum char_is_signed (as_String doc "data") in
    let computed := String_of_uchar value HEX in
    let declared := WString.take 2 c in
    let forwarded :=
      mkState (transmitMode st) (currentFreq st) (packetQueue st)
              (serial st ++ "<DATA|" ++ serializeJson doc ++ ">" ++ CRLF)
              (radio st ++ [Receive])%list in
    let rejected :=
      mkState (transmitMode st) (currentFreq st) (packetQueue st)
              (serial st ++ "<STATUS|CHECKSUM_ERR>" ++ CRLF)
              (radio st ++ [Receive])%list in
    (declared = computed <->
       handleReception (RADIOLIB_ERR_NONE, received) st = Some forwarded)
    /\ (declared <> computed <->
          handleReception (RADIOLIB_ERR_NONE, received) st = Some rejected)
    /\ computed = (if value <? 16 then String (digit_char value) EmptyString
                   else two_hex_digits value).
Proof.
  intros received doc h_type h_filename c st Hdoc Htype Hfile Hsum
         value computed declared forwarded rejected.
  pose proof (handleReception_parsed _ _ _ _ _ st Hdoc Htype Hfile Hsum) as H.
  fold value in H. fold computed in H. fold declared in H.
  assert (Hdiff : forwarded <> rejected).
  { unfold forwarded, rejected. intros E. injection E as E.
    apply append_inv_l in E. discriminate E. }
  destruct (String.eqb computed declared) eqn:E.
  - apply String.eqb_eq in E. fold forwarded in H.
    split; [| split].
    + split; [intros _; exact H | intros _; now symmetry].
    + split; [intros Hne; now elim Hne |].
      intros Hr. rewrite H in Hr. elim Hdiff. congruence.
    + apply String_of_uchar_HEX. apply calculateChecksum_range.
  - apply String.eqb_neq in E. fold rejected in H.
    split; [| split].
    + split; [intros He; now elim E |].
      intros Hf. rewrite H in Hf. elim Hdiff. congruence.
    + split; [intros _; exact H | intros _ He; now elim E].
    + apply String_of_uchar_HEX. apply calculateChecksum_range.
Qed.

(** C7. When the codec fails on the received text, the decoder writes
    the one line [<ERROR|JSON:<message>>] and returns: the text is not
    kept anywhere, and mode, frequency and queue are as before.  The
    same holds for every run of the decoder that returns, and in
    particular for a checksum mismatch, where the one line written is
    [<STATUS|CHECKSUM_ERR>]. *)
Theorem reception_failures_change_nothing :
  (forall (received : string) (error : DeserializationError) (st : State),
      deserializeJson received = inr error ->
      handleReception (RADIOLIB_ERR_NONE, received) st =
        Some (mkState (transmitMode st) (currentFreq st) (packetQueue st)
                (serial st ++ "<ERROR|JSON:" ++ c_str error ++ ">" ++ CRLF)
                (radio st ++ [Receive])%list))
  /\ (forall (rx : Z * string) (st st' : State),
        handleReception rx st = Some st' ->
        transmitMode st' = transmitMode st
        /\ currentFreq st' = currentFreq st
        /\ packetQueue st' = packetQueue st)
  /\ (forall (received : string) (doc : JsonDocument)
             (h_type h_filename c : string) (st : State),
        deserializeJson received = inl doc ->
        as_cstr doc "type" = Some h_type ->
        as_cstr doc "filename" = Some h_filename ->
        as_cstr doc "checksum" = Some c ->
        WString.take 2 c
          <> String_of_uchar
               (calculateChecksum char_is_signed (as_String doc "data")) HEX ->
        handleReception (RADIOLIB_ERR_NONE, received) st =
          Some (mkState (transmitMode st) (currentFreq st) (packetQueue st)
                  (serial st ++ "<STATUS|CHECKSUM_ERR>" ++ CRLF)
                  (radio st ++ [Receive])%list)).
Proof.
  split; [| split].
  - intros received error st Herr. unfold handleReception.
    change (RADIOLIB_ERR_NONE =? RADIOLIB_ERR_NONE) with true. cbv iota.
    rewrite Herr. unfold Serial_println, Serial_print, radio_call. simpl.
    now rewrite !append_assoc.
  - apply handleReception_frame.
  - intros received doc h_type h_filename c st Hdoc Htype Hfile Hsum Hne.
    rewrite (handleReception_parsed _ _ _ _ _ st Hdoc Htype Hfile Hsum).
    destruct (String.eqb _ (WString.take 2 c)) eqn:E; [| reflexivity].
    apply String.eqb_eq in E. now elim Hne.
Qed.

End Reception.

(** * Further properties *)

(** ** More about the checksum *)

Lemma calculateChecksum_code_sum (signed : bool) (payload : string) :
  calculateChecksum signed payload = code_sum payload mod 256.
Proof.
  unfold calculateChecksum. rewrite checksum_loop_running.
  rewrite running_sum_total by lia. reflexivity.
Qed.

Lemma code_sum_app (a b : string) : code_sum (a ++ b) = code_sum a + code_sum b.
Proof. induction a as [| c a IH]; simpl; [reflexivity | rewrite IH; lia]. Qed.

Lemma code_sum_chars (s : string) :
  code_sum s = fold_right (fun c acc => byte_of c + acc) 0 (list_ascii_of_string s).
Proof. induction s as [| c s IH]; simpl; [reflexivity | now rewrite IH]. Qed.

Lemma byte_of_inj (c d : ascii) : byte_of c = byte_of d -> c = d.
Proof.
  unfold byte_of. intros H. apply N2Z.inj in H.
  rewrite <- (ascii_N_embedding c), <- (ascii_N_embedding d). now rewrite H.
Qed.

(** X1. The checksum of two texts put together is the sum of their
    checksums modulo 256: a payload can be checksummed piece by piece. *)
Theorem calculateChecksum_concat :
  forall (signed : bool) (a b : string),
    calculateChecksum signed (a ++ b)
    = (calculateChecksum signed a + calculateChecksum signed b) mod 256.
Proof.
  intros signed a b. rewrite !calculateChecksum_code_sum, code_sum_app.
  now rewrite <- Z.add_mod by lia.
Qed.

(** X2. The checksum does not see the order of the characters: two
    payloads made of the same characters have the same checksum. *)
Theorem calculateChecksum_blind_to_order :
  forall (signed : bool) (a b : string),
    Permutation (list_ascii_of_string a) (list_ascii_of_string b) ->
    calculateChecksum signed a = calculateChecksum signed b.
Proof.
  intros signed a b Hperm. rewrite !calculateChecksum_code_sum. f_equal.
  rewrite !code_sum_chars.
  induction Hperm as [| x l l' _ IH | x y l | l l' l'' _ IH1 _ IH2]; simpl.
  - reflexivity.
  - now rewrite IH.
  - lia.
  - now rewrite IH1.
Qed.

Lemma code_sum_one_change (before after : string) (c d : ascii) :
  c <> d ->
  code_sum (before ++ String c after) mod 256
  <> code_sum (before ++ String d after) mod 256.
Proof.
  intros Hcd. rewrite !code_sum_app. simpl.
  pose proof (byte_of_range c) as Hc. pose proof (byte_of_range d) as Hd.
  assert (Hne : byte_of c <> byte_of d)
    by (intros E; apply Hcd; now apply byte_of_inj).
  intros E.
  set (x := code_sum before + code_sum after) in *.
  replace (code_sum before + (byte_of c + code_sum after))
    with (byte_of c + x) in E by (unfold x; lia).
  replace (code_sum before + (byte_of d + code_sum after))
    with (byte_of d + x) in E by (unfold x; lia).
  pose proof (Z.div_mod (byte_of c + x) 256).
  pose proof (Z.div_mod (byte_of d + x) 256).
  lia.
Qed.

(** X3. The checksum sees every change of a single character: two
    payloads that differ in one position only have different checksums. *)
Theorem calculateChecksum_detects_one_change :
  forall (signed : bool) (before after : string) (c d : ascii),
    c <> d ->
    calculateChecksum signed (before ++ String c after)
    <> calculateChecksum signed (before ++ String d after).
Proof.
  intros signed before after c d Hcd.
  rewrite !calculateChecksum_code_sum.
  now apply code_sum_one_change.
Qed.

(** ** More about the inbound packet decoder *)

Section ReceptionMore.

Context {P : Platform}.
Import WStringFacts DecimalFacts.

Lemma byte_of_digit_char (d : Z) :
  0 <= d < 16 ->
  byte_of (digit_char d) = if d <? 10 then 48 + d else 87 + d.
Proof.
  intros Hd. unfold digit_char.
  destruct (d <? 10); apply byte_of_ascii_of_N; lia.
Qed.

Lemma digit_char_inj (d e : Z) :
  0 <= d < 16 -> 0 <= e < 16 -> digit_char d = digit_char e -> d = e.
Proof.
  intros Hd He H. apply (f_equal byte_of) in H.
  rewrite !byte_of_digit_char in H by assumption.
  destruct (d <? 10) eqn:E1; destruct (e <? 10) eqn:E2;
    try apply Z.ltb_lt in E1; try apply Z.ltb_ge in E1;
    try apply Z.ltb_lt in E2; try apply Z.ltb_ge in E2; lia.
Qed.

(** Different bytes have different hexadecimal texts. *)
Lemma String_of_uchar_HEX_inj (v w : Z) :
  0 <= v <= 255 -> 0 <= w <= 255 ->
  String_of_uchar v HEX = String_of_uchar w HEX -> v = w.
Proof.
  intros Hv Hw. rewrite !String_of_uchar_HEX by assumption.
  unfold two_hex_digits.
  assert (Hdiv : forall n, 0 <= n <= 255 -> 0 <= n / 16 < 16).
  { intros n Hn. split; [apply Z.div_pos; lia | apply Z.div_lt_upper_bound; lia]. }
  destruct (v <? 16) eqn:E1; destruct (w <? 16) eqn:E2; intros H.
  - apply Z.ltb_lt in E1. apply Z.ltb_lt in E2.
    injection H as H. apply digit_char_inj; [lia | lia | exact H].
  - discriminate H.
  - discriminate H.
  - injection H as H1 H2.
    apply digit_char_inj in H1; [| apply Hdiv; lia | apply Hdiv; lia].
    apply digit_char_inj in H2; try (apply Z.mod_pos_bound; lia).
    rewrite (Z.div_mod v 16), (Z.div_mod w 16) by lia. lia.
Qed.

(** The hexadecimal text of a byte fits the three-byte buffer. *)
Lemma take_2_String_of_uchar_HEX (v : Z) :
  0 <= v <= 255 ->
  WString.take 2 (String_of_uchar v HEX) = String_of_uchar v HEX.
Proof.
  intros Hv. rewrite String_of_uchar_HEX by exact Hv.
  destruct (v <? 16); reflexivity.
Qed.

(** X4. A packet that declares exactly the text the gateway computes
    for its data, [String(calculateChecksum(data), HEX)], is always
    forwarded: the copy into the three-byte [checksum] buffer never
    cuts a correct checksum short. *)
Theorem honest_checksum_is_forwarded :
  forall (received : string) (doc : JsonDocument)
         (h_type h_filename : string) (st : State),
    deserializeJson received = inl doc ->
    as_cstr doc "type" = Some h_type ->
    as_cstr doc "filename" = Some h_filename ->
    as_cstr doc "checksum"
    = Some (String_of_uchar
              (calculateChecksum char_is_signed (as_String doc "data")) HEX) ->
    handleReception (RADIOLIB_ERR_NONE, received) st =
      Some (mkState (transmitMode st) (currentFreq st) (packetQueue st)
              (serial st ++ "<DATA|" ++ serializeJson doc ++ ">" ++ CRLF)
              (radio st ++ [Receive])%list).
Proof.
  intros received doc h_type h_filename st Hdoc Htype Hfile Hsum.
  rewrite (handleReception_parsed _ _ _ _ _ st Hdoc Htype Hfile Hsum).
  rewrite take_2_String_of_uchar_HEX by apply calculateChecksum_range.
  now rewrite String.eqb_refl.
Qed.

(** X5. Only the first two characters of the declared checksum count.
    Extra characters after a correct two-digit checksum are cut off by
    the copy into the header and the packet is forwarded; after a
    correct one-digit checksum (a value below 16) the first extra
    character is kept and the packet is rejected. *)
Theorem declared_checksum_is_cut_to_two_characters :
  forall (received : string) (doc : JsonDocument)
         (h_type h_filename : string) (extra : ascii) (more : string) (st : State),
    deserializeJson received = inl doc ->
    as_cstr doc "type" = Some h_type ->
    as_cstr doc "filename" = Some h_filename ->
    let value := calculateChecksum char_is_signed (as_String doc "data") in
    as_cstr doc "checksum"
    = Some (String_of_uchar value HEX ++ String extra more) ->
    handleReception (RADIOLIB_ERR_NONE, received) st =
      Some (mkState (transmitMode st) (currentFreq st) (packetQueue st)
              (if value <? 16
               then serial st ++ "<STATUS|CHECKSUM_ERR>" ++ CRLF
               else serial st ++ "<DATA|" ++ serializeJson doc ++ ">" ++ CRLF)
              (radio st ++ [Receive])%list).
Proof.
  intros received doc h_type h_filename extra more st Hdoc Htype Hfile value Hsum.
  rewrite (handleReception_parsed _ _ _ _ _ st Hdoc Htype Hfile Hsum).
  fold value. pose proof (calculateChecksum_range char_is_signed (as_String doc "data")) as Hv.
  fold value in Hv. rewrite (String_of_uchar_HEX value Hv).
  destruct (value <? 16).
  - cbn [append WString.take]. 
    destruct (String.eqb _ _) eqn:E; [| reflexivity].
    apply String.eqb_eq in E. discriminate E.
  - unfold two_hex_digits. cbn [append WString.take].
    now rewrite String.eqb_refl.
Qed.

(** X6. A change of one character of the data on the way is always
    caught: if the declared checksum is the text for the data as sent
    and the data received differs from it in one position, the packet
    is rejected. *)
Theorem one_changed_character_is_rejected :
  forall (received : string) (doc : JsonDocument)
         (h_type h_filename before after : string) (sent got : ascii) (st : State),
    deserializeJson received = inl doc ->
    as_cstr doc "type" = Some h_type ->
    as_cstr doc "filename" = Some h_filename ->
    as_String doc "data" = before ++ String got after ->
    as_cstr doc "checksum"
    = Some (String_of_uchar
              (calculateChecksum char_is_signed (before ++ String sent after)) HEX) ->
    sent <> got ->
    handleReception (RADIOLIB_ERR_NONE, received) st =
      Some (mkState (transmitMode st) (currentFreq st) (packetQueue st)
              (serial st ++ "<STATUS|CHECKSUM_ERR>" ++ CRLF)
              (radio st ++ [Receive])%list).
Proof.
  intros received doc h_type h_filename before after sent got st
         Hdoc Htype Hfile Hdata Hsum Hne.
  rewrite (handleReception_parsed _ _ _ _ _ st Hdoc Htype Hfile Hsum).
  rewrite Hdata.
  rewrite take_2_String_of_uchar_HEX by apply calculateChecksum_range.
  destruct (String.eqb _ _) eqn:E; [| reflexivity].
  apply String.eqb_eq in E.
  apply String_of_uchar_HEX_inj in E; try apply calculateChecksum_range.
  rewrite !calculateChecksum_code_sum in E.
  symmetry in E. now apply code_sum_one_change in E.
Qed.

(** X7. The decoder runs into undefined behaviour exactly when the
    radio reported success, the text parsed, and one of the members
    [type], [filename], [checksum] is missing or is no string: each is
    copied with [strlcpy] without a check for the null pointer. *)
Theorem missing_text_member_is_undefined :
  forall (state : Z) (received : string) (st : State),
    handleReception (state, received) st = None
    <-> (state = RADIOLIB_ERR_NONE
         /\ exists doc, deserializeJson received = inl doc
                        /\ (as_cstr doc "type" = None
                            \/ as_cstr doc "filename" = None
                            \/ as_cstr doc "checksum" = None)).
Proof.
  intros state received st. unfold handleReception.
  destruct (state =? RADIOLIB_ERR_NONE) eqn:E.
  - apply Z.eqb_eq in E.
    destruct (deserializeJson received) as [doc | error].
    + destruct (as_cstr doc "type") as [t |] eqn:Ht;
        destruct (as_cstr doc "filename") as [f |] eqn:Hf;
        destruct (as_cstr doc "checksum") as [c |] eqn:Hc; cbn [strlcpy];
        try (split; [intros _; split; [exact E |]; exists doc; split; [reflexivity |]; tauto | reflexivity]).
      split.
      * match goal with |- context [negb ?b] => destruct b end; discriminate.
      * intros [_ [doc' [Hd [H | [H | H]]]]]; injection Hd as <-; congruence.
    + split; [discriminate |]. intros [_ [doc' [Hd _]]]. discriminate Hd.
  - apply Z.eqb_neq in E. split; [discriminate |]. intros [H _]. contradiction.
Qed.

(** The ways a run of the decoder can return. *)
Lemma handleReception_outcomes (rx : Z * string) (st st' : State) :
  handleReception rx st = Some st' ->
  radio st' = (radio st ++ [Receive])%list
  /\ (serial st' = serial st
      \/ (exists error, serial st' = serial st ++ "<ERROR|JSON:" ++ c_str error ++ ">" ++ CRLF)
      \/ serial st' = serial st ++ "<STATUS|CHECKSUM_ERR>" ++ CRLF
      \/ (exists doc, serial st' = serial st ++ "<DATA|" ++ serializeJson doc ++ ">" ++ CRLF)).
Proof.
  destruct rx as [state received]. unfold handleReception.
  destruct (state =? RADIOLIB_ERR_NONE).
  - destruct (deserializeJson received) as [doc | error].
    + destruct (strlcpy (as_cstr doc "type") 8); [| discriminate].
      destruct (strlcpy (as_cstr doc "filename") 32); [| discriminate].
      destruct (strlcpy (as_cstr doc "checksum") 3); [| discriminate].
      match goal with |- context [negb ?b] => destruct b end; cbn [negb];
        intros H; injection H as <-; (split; [reflexivity |]).
      * right. right. right. exists doc.
        unfold Serial_println, Serial_print, radio_call. simpl.
        now rewrite !append_assoc.
      * right. right. left.
        unfold Serial_println, Serial_print, radio_call. simpl.
        now rewrite !append_assoc.
    + intros H; injection H as <-. split; [reflexivity |].
      right. left. exists error.
      unfold Serial_println, Serial_print, radio_call. simpl.
      now rewrite !append_assoc.
  - intros H; injection H as <-. split; [reflexivity | now left].
Qed.

(** X8. A run of the decoder that returns makes the one call
    [radio.receive].  When the radio reported no packet it writes
    nothing.  When the radio reported a packet it writes exactly one
    line: the parse error with the codec's message if the text did not
    parse, and otherwise either the checksum error or the forwarded
    packet. *)
Theorem reception_writes_one_line_per_packet :
  forall (state : Z) (received : string) (st st' : State),
    handleReception (state, received) st = Some st' ->
    radio st' = (radio st ++ [Receive])%list
    /\ (state <> RADIOLIB_ERR_NONE -> serial st' = serial st)
    /\ (state = RADIOLIB_ERR_NONE ->
        match deserializeJson received with
        | inr error =>
            serial st' = serial st ++ "<ERROR|JSON:" ++ c_str error ++ ">" ++ CRLF
        | inl doc =>
            serial st' = serial st ++ "<STATUS|CHECKSUM_ERR>" ++ CRLF
            \/ serial st' = serial st ++ "<DATA|" ++ serializeJson doc ++ ">" ++ CRLF
        end).
Proof.
  intros state received st st'. unfold handleReception.
  destruct (state =? RADIOLIB_ERR_NONE) eqn:E.
  - apply Z.eqb_eq in E.
    destruct (deserializeJson received) as [doc | error].
    + destruct (strlcpy (as_cstr doc "type") 8); [| discriminate].
      destruct (strlcpy (as_cstr doc "filename") 32); [| discriminate].
      destruct (strlcpy (as_cstr doc "checksum") 3); [| discriminate].
      match goal with |- context [negb ?b] => destruct b end; cbn [negb];
        intros H; injection H as <-;
        (split; [reflexivity |]); (split; [intros Hne; contradiction |]);
        intros _.
      * right. unfold Serial_println, Serial_print, radio_call. simpl.
        now rewrite !append_assoc.
      * left. unfold Serial_println, Serial_print, radio_call. simpl.
        now rewrite !append_assoc.
    + intros H; injection H as <-.
      split; [reflexivity |]. split; [intros Hne; contradiction |].
      intros _. unfold Serial_println, Serial_print, radio_call. simpl.
      now rewrite !append_assoc.
  - apply Z.eqb_neq in E. intros H; injection H as <-.
    split; [reflexivity |]. split; [reflexivity |].
    intros Heq. contradiction.
Qed.

End ReceptionMore.

(** ** More about the outbound queue *)

Section QueueMore.

Context {P : Platform}.
Import WString WStringFacts.

Ltac no_other_prefix Hline :=
  repeat match goal with
    | |- context [startsWith ?l ?p] =>
        let E := fresh "E" in
        assert (E : startsWith l p = false) by (rewrite Hline; reflexivity);
        rewrite E; clear E
    end.

Lemma set_packetQueue_same (st : State) : set_packetQueue (packetQueue st) st = st.
Proof. now destruct st. Qed.

Lemma set_packetQueue_twice (q1 q2 : ArduinoQueue.t) (st : State) :
  set_packetQueue q2 (set_packetQueue q1 st) = set_packetQueue q2 st.
Proof. reflexivity. Qed.

(** What a [<DATA|] line does, whatever follows the prefix. *)
Lemma handleRadioCommand_data (command : string) (st : State) :
  fits command ->
  startsWith command "<DATA|" = true ->
  handleRadioCommand command st =
    set_packetQueue
      (ArduinoQueue.enqueue (upto ">" (drop 6 command)) (packetQueue st)) st.
Proof.
  intros Hfits Hdata.
  pose proof (startsWith_inv _ _ Hdata) as Hline.
  change (String.length "<DATA|") with 6%nat in Hline.
  unfold handleRadioCommand. no_other_prefix Hline. rewrite Hdata.
  f_equal. f_equal.
  rewrite Hline at 1 2. rewrite Hline in Hfits.
  change 6 with (len "<DATA|").
  apply substring_upto; [exact Hfits |].
  apply indexOf_prefix. reflexivity.
Qed.

Lemma handleRadioCommand_data_line (payload : string) (st : State) :
  fits (data_line payload) ->
  strchr payload ">" = None ->
  handleRadioCommand (data_line payload) st =
    set_packetQueue (ArduinoQueue.enqueue payload (packetQueue st)) st.
Proof.
  intros Hfits Hnone.
  rewrite handleRadioCommand_data; [| exact Hfits | apply startsWith_app].
  unfold data_line.
  change (drop 6 ("<DATA|" ++ payload ++ ">")) with (payload ++ String ">" EmptyString).
  now rewrite upto_app.
Qed.

(** X9. When the queue is full a [<DATA|] line is dropped without a
    trace: no entry is added or displaced, nothing is written to the
    serial port, and the rest of the state stays as it was. *)
Theorem data_line_on_full_queue_is_dropped :
  forall (command : string) (st : State),
    startsWith command "<DATA|" = true ->
    ArduinoQueue.count (packetQueue st) = ArduinoQueue.maxItems (packetQueue st) ->
    handleRadioCommand command st = st.
Proof.
  intros command st Hdata Hfull.
  pose proof (startsWith_inv _ _ Hdata) as Hline.
  unfold handleRadioCommand. no_other_prefix Hline. rewrite Hdata.
  unfold ArduinoQueue.enqueue. rewrite Hfull, Z.eqb_refl.
  apply set_packetQueue_same.
Qed.

Lemma firstn_app_full {A : Type} (n : nat) (l x : list A) :
  List.length l = n -> firstn n (l ++ x) = l.
Proof.
  intros <-. rewrite firstn_app, Nat.sub_diag, firstn_all. simpl.
  apply app_nil_r.
Qed.

(** X10. While the gateway is in RX mode and the radio reports no
    packet, turns of [loop] that read lines [<DATA|p>] queue their
    payloads in the order given until fifty are held; every later
    payload is lost.  Nothing is written to the serial port, and the
    radio is called once per turn, to receive. *)
Theorem data_lines_in_rx_mode_fill_queue :
  forall (payloads : list string) (inputs : list LoopInput) (st : State),
    transmitMode st = false ->
    ArduinoQueue.maxItems (packetQueue st) = 50 ->
    (List.length (ArduinoQueue.items (packetQueue st)) <= 50)%nat ->
    Forall2 (fun p i => line i = Some (data_line p)
                        /\ strchr p ">" = None
                        /\ fits (data_line p)
                        /\ fst (receive_result i) <> RADIOLIB_ERR_NONE)
            payloads inputs ->
    run inputs st =
      Some (mkState false (currentFreq st)
              (ArduinoQueue.mk
                 (firstn 50 (ArduinoQueue.items (packetQueue st) ++ payloads)) 50)
              (serial st)
              (radio st ++ repeat Receive (List.length payloads))%list).
Proof.
  intros payloads inputs st Hmode Hmax Hlen Hall. revert st Hmode Hmax Hlen.
  induction Hall as [| p i payloads inputs [Hline [Hnone [Hfits Hrx]]] _ IH];
    intros st Hmode Hmax Hlen.
  - cbn [run List.length repeat]. rewrite !app_nil_r.
    rewrite firstn_all2 by exact Hlen.
    destruct st as [m f [items max] s r]. cbn in Hmode, Hmax. now subst.
  - assert (Hloop : loop i st
                    = Some (radio_call Receive
                              (set_packetQueue
                                 (ArduinoQueue.enqueue p (packetQueue st)) st))).
    { unfold loop. rewrite Hline.
      rewrite handleRadioCommand_data_line by assumption.
      cbn [set_packetQueue transmitMode]. rewrite Hmode.
      destruct (receive_result i) as [state text]. cbn [fst] in Hrx.
      unfold handleReception. apply Z.eqb_neq in Hrx. now rewrite Hrx. }
    cbn [run]. rewrite Hloop.
    unfold ArduinoQueue.enqueue, ArduinoQueue.count. rewrite Hmax.
    destruct (Z.of_nat (List.length (ArduinoQueue.items (packetQueue st))) =? 50) eqn:E.
    + apply Z.eqb_eq in E. rewrite set_packetQueue_same.
      rewrite IH; [| exact Hmode | exact Hmax | exact Hlen].
      cbn [radio_call transmitMode currentFreq packetQueue serial radio
           List.length repeat].
      rewrite !firstn_app_full by lia. rewrite <- app_assoc. reflexivity.
    + apply Z.eqb_neq in E. rewrite IH.
      * cbn [radio_call set_packetQueue transmitMode currentFreq packetQueue
             serial radio ArduinoQueue.items List.length repeat].
        rewrite <- !app_assoc. reflexivity.
      * exact Hmode.
      * reflexivity.
      * cbn [radio_call set_packetQueue packetQueue ArduinoQueue.items].
        rewrite length_app. cbn [List.length]. lia.
Qed.

Lemma repeat_text_succ_r (n : nat) (text : string) :
  repeat_text n text ++ text = text ++ repeat_text n text.
Proof.
  induction n as [| n IH]; simpl; [now rewrite append_nil_r |].
  now rewrite append_assoc, IH.
Qed.

(** Attempts that the radio accepts, no more of them than entries. *)
Lemma attempts_accepted (radios : list (string -> Z)) :
  forall st,
    ArduinoQueue.wf (packetQueue st) ->
    Forall accepts radios ->
    (List.length radios <= List.length (ArduinoQueue.items (packetQueue st)))%nat ->
    let k := List.length radios in
    let items := ArduinoQueue.items (packetQueue st) in
    attempts radios st =
      mkState (transmitMode st) (currentFreq st)
              (ArduinoQueue.mk (skipn k items) (ArduinoQueue.maxItems (packetQueue st)))
              (serial st ++ repeat_text k ("<STATUS|TX_SUCCESS>" ++ CRLF))
              (radio st ++ map Transmit (firstn k items))%list.
Proof.
  induction radios as [| transmit rest IH]; intros st Hwf Hall Hlen k items.
  - unfold k, items. simpl. rewrite append_nil_r, app_nil_r.
    destruct st as [m f [its max] s r]. reflexivity.
  - inversion Hall as [| ? ? Hok Hrest]; subst.
    unfold k, items in *. clear k items.
    destruct (ArduinoQueue.items (packetQueue st)) as [| head tail] eqn:Hitems;
      [simpl in Hlen; lia |].
    simpl attempts.
    pose proof (handleTransmission_wf transmit st Hwf) as Hwf1.
    pose proof (handleTransmission_head transmit st head tail Hwf Hitems) as E1.
    rewrite (Hok head) in E1. change (RADIOLIB_ERR_NONE =? RADIOLIB_ERR_NONE) with true in E1.
    cbv iota in E1.
    rewrite IH; [| exact Hwf1 | exact Hrest | rewrite E1; simpl in *; lia].
    rewrite E1. simpl. rewrite !append_assoc. rewrite <- app_assoc. reflexivity.
Qed.

(** X11. While the radio accepts, payloads leave in the order they were
    queued: [k] accepted attempts on a queue of at least [k] entries
    hand the first [k] entries to the radio in queue order, write [k]
    times [<STATUS|TX_SUCCESS>], and leave the remaining entries. *)
Theorem accepted_attempts_send_in_queue_order :
  forall (radios : list (string -> Z)) (st : State),
    ArduinoQueue.wf (packetQueue st) ->
    Forall accepts radios ->
    (List.length radios <= List.length (ArduinoQueue.items (packetQueue st)))%nat ->
    let k := List.length radios in
    let items := ArduinoQueue.items (packetQueue st) in
    let st' := attempts radios st in
    radio st' = (radio st ++ map Transmit (firstn k items))%list
    /\ ArduinoQueue.items (packetQueue st') = skipn k items
    /\ serial st' = serial st ++ repeat_text k ("<STATUS|TX_SUCCESS>" ++ CRLF).
Proof.
  intros radios st Hwf Hall Hlen k items st'. unfold st'.
  rewrite attempts_accepted by assumption.
  repeat split.
Qed.

(** Attempts that the radio refuses, no more of them than entries. *)
Lemma attempts_refused (radios : list (string -> Z)) :
  forall st,
    ArduinoQueue.wf (packetQueue st) ->
    Forall refuses radios ->
    (List.length radios <= List.length (ArduinoQueue.items (packetQueue st)))%nat ->
    let k := List.length radios in
    let items := ArduinoQueue.items (packetQueue st) in
    attempts radios st =
      mkState (transmitMode st) (currentFreq st)
              (ArduinoQueue.mk (skipn k items ++ firstn k items)%list
                               (ArduinoQueue.maxItems (packetQueue st)))
              (serial st ++ repeat_text k ("<STATUS|TX_FAIL>" ++ CRLF))
              (radio st ++ map Transmit (firstn k items))%list.
Proof.
  induction radios as [| transmit rest IH]; intros st Hwf Hall Hlen k items.
  - unfold k, items. simpl. rewrite append_nil_r, !app_nil_r.
    destruct st as [m f [its max] s r]. reflexivity.
  - inversion Hall as [| ? ? Hno Hrest]; subst.
    unfold k, items in *. clear k items.
    destruct (ArduinoQueue.items (packetQueue st)) as [| head tail] eqn:Hitems;
      [simpl in Hlen; lia |].
    simpl attempts.
    pose proof (handleTransmission_wf transmit st Hwf) as Hwf1.
    pose proof (handleTransmission_head transmit st head tail Hwf Hitems) as E1.
    pose proof (Hno head) as Hne. apply Z.eqb_neq in Hne. rewrite Hne in E1.
    simpl in Hlen.
    rewrite IH; [| exact Hwf1 | exact Hrest | rewrite E1; simpl; rewrite length_app; simpl; lia].
    rewrite E1. cbn [transmitMode currentFreq packetQueue serial radio
                     ArduinoQueue.items ArduinoQueue.maxItems].
    rewrite skipn_app, firstn_app.
    replace (List.length rest - List.length tail)%nat with O by lia.
    cbn [skipn firstn List.length]. rewrite app_nil_r.
    rewrite !append_assoc. rewrite <- !app_assoc. reflexivity.
Qed.

(** X12. While the radio refuses, the queue turns: [k] refused attempts
    on a queue of at least [k] entries hand the first [k] entries to
    the radio in order and move them, in order, behind the others; so
    after as many refused attempts as there are entries the queue is
    back in its original order.  Each attempt writes
    [<STATUS|TX_FAIL>]. *)
Theorem refused_attempts_rotate_queue :
  forall (radios : list (string -> Z)) (st : State),
    ArduinoQueue.wf (packetQueue st) ->
    Forall refuses radios ->
    (List.length radios <= List.length (ArduinoQueue.items (packetQueue st)))%nat ->
    let k := List.length radios in
    let items := ArduinoQueue.items (packetQueue st) in
    let st' := attempts radios st in
    ArduinoQueue.items (packetQueue st') = (skipn k items ++ firstn k items)%list
    /\ radio st' = (radio st ++ map Transmit (firstn k items))%list
    /\ serial st' = serial st ++ repeat_text k ("<STATUS|TX_FAIL>" ++ CRLF)
    /\ (k = List.length items -> ArduinoQueue.items (packetQueue st') = items).
Proof.
  intros radios st Hwf Hall Hlen k items st'. unfold st'.
  rewrite attempts_refused by assumption. fold k. fold items.
  cbn [packetQueue radio serial ArduinoQueue.items].
  repeat split.
  intros Hk. rewrite Hk. rewrite skipn_all, firstn_all. reflexivity.
Qed.

(** X13. There is no retry limit: a single queued payload that the
    radio keeps refusing is handed to it again at every attempt,
    however many there are, and is still queued afterwards. *)
Theorem refused_payload_is_retried_without_limit :
  forall (radios : list (string -> Z)) (payload : string) (st : State),
    ArduinoQueue.wf (packetQueue st) ->
    ArduinoQueue.items (packetQueue st) = [payload] ->
    Forall refuses radios ->
    let n := List.length radios in
    let st' := attempts radios st in
    ArduinoQueue.items (packetQueue st') = [payload]
    /\ radio st' = (radio st ++ repeat (Transmit payload) n)%list
    /\ serial st' = serial st ++ repeat_text n ("<STATUS|TX_FAIL>" ++ CRLF).
Proof.
  intros radios. induction radios as [| transmit rest IH];
    intros payload st Hwf Hitems Hall n st'; unfold n, st'.
  - simpl. rewrite append_nil_r, app_nil_r. now split.
  - inversion Hall as [| ? ? Hno Hrest]; subst. simpl attempts.
    pose proof (handleTransmission_wf transmit st Hwf) as Hwf1.
    pose proof (handleTransmission_head transmit st payload [] Hwf Hitems) as E1.
    pose proof (Hno payload) as Hne. apply Z.eqb_neq in Hne. rewrite Hne in E1.
    simpl in E1.
    destruct (IH payload (handleTransmission transmit st) Hwf1) as [H1 [H2 H3]];
      [now rewrite E1 | exact Hrest |].
    split; [exact H1 |]. split.
    + rewrite H2, E1. simpl. now rewrite <- app_assoc.
    + rewrite H3, E1. simpl. now rewrite !append_assoc.
Qed.

End QueueMore.

(** ** The driving loop *)

Section LoopMore.

Context {P : Platform}.
Import WString WStringFacts.

(** What a command adds to the two devices: at most one line, and at
    most one [setFrequency] call. *)
Lemma handleRadioCommand_appends (command : string) (st : State) :
  (exists out, serial (handleRadioCommand command st) = serial st ++ out)
  /\ (radio (handleRadioCommand command st) = radio st
      \/ exists f, radio (handleRadioCommand command st)
                   = (radio st ++ [SetFrequency f])%list).
Proof.
  unfold handleRadioCommand.
  destruct (startsWith command "<SET|").
  { split; [eexists; rewrite serial_println; cbn; reflexivity | right; eexists; reflexivity]. }
  destruct (startsWith command "<TXMODE>").
  { split; [eexists; rewrite serial_println; cbn; reflexivity | now left]. }
  destruct (startsWith command "<RXMODE>").
  { split; [eexists; rewrite serial_println; cbn; reflexivity | now left]. }
  destruct (startsWith command "<RX_READY>").
  { split; [eexists; rewrite serial_println; cbn; reflexivity | now left]. }
  destruct (startsWith command "<FILE|").
  { destruct (file_fields command) as [[f t] z]. split; [| now left].
    eexists. rewrite serial_println. cbn [Serial_print serial].
    rewrite !append_assoc. reflexivity. }
  destruct (startsWith command "<DATA|").
  { split; [exists EmptyString; simpl; now rewrite append_nil_r | now left]. }
  split; [exists EmptyString; now rewrite append_nil_r | now left].
Qed.

Lemma handleRadioCommand_freq (command : string) (st : State) :
  (radio (handleRadioCommand command st) = radio st
   /\ currentFreq (handleRadioCommand command st) = currentFreq st)
  \/ radio (handleRadioCommand command st)
     = (radio st ++ [SetFrequency (currentFreq (handleRadioCommand command st))])%list.
Proof.
  unfold handleRadioCommand.
  destruct (startsWith command "<SET|"); [right; reflexivity |].
  destruct (startsWith command "<TXMODE>"); [left; now split |].
  destruct (startsWith command "<RXMODE>"); [left; now split |].
  destruct (startsWith command "<RX_READY>"); [left; now split |].
  destruct (startsWith command "<FILE|").
  { destruct (file_fields command) as [[f t] z]. left; now split. }
  destruct (startsWith command "<DATA|"); left; now split.
Qed.

Lemma handleRadioCommand_maxItems (command : string) (st : State) :
  ArduinoQueue.maxItems (packetQueue (handleRadioCommand command st))
  = ArduinoQueue.maxItems (packetQueue st).
Proof.
  unfold handleRadioCommand.
  destruct (startsWith command "<SET|"); [reflexivity |].
  destruct (startsWith command "<TXMODE>"); [reflexivity |].
  destruct (startsWith command "<RXMODE>"); [reflexivity |].
  destruct (startsWith command "<RX_READY>"); [reflexivity |].
  destruct (startsWith command "<FILE|").
  { destruct (file_fields command) as [[f t] z]. reflexivity. }
  destruct (startsWith command "<DATA|"); [| reflexivity].
  simpl. unfold ArduinoQueue.enqueue.
  destruct (_ =? _); reflexivity.
Qed.

(** A command only ever adds to the queue, at its tail. *)
Lemma handleRadioCommand_queue_grows (command : string) (st : State) :
  exists added,
    ArduinoQueue.items (packetQueue (handleRadioCommand command st))
    = (ArduinoQueue.items (packetQueue st) ++ added)%list.
Proof.
  unfold handleRadioCommand.
  destruct (startsWith command "<SET|"); [exists []; simpl; now rewrite app_nil_r |].
  destruct (startsWith command "<TXMODE>"); [exists []; simpl; now rewrite app_nil_r |].
  destruct (startsWith command "<RXMODE>"); [exists []; simpl; now rewrite app_nil_r |].
  destruct (startsWith command "<RX_READY>"); [exists []; simpl; now rewrite app_nil_r |].
  destruct (startsWith command "<FILE|").
  { destruct (file_fields command) as [[f t] z]. exists []; simpl; now rewrite app_nil_r. }
  destruct (startsWith command "<DATA|"); [| exists []; now rewrite app_nil_r].
  simpl. unfold ArduinoQueue.enqueue.
  destruct (_ =? _); [exists []; now rewrite app_nil_r | eexists; reflexivity].
Qed.

(** What one attempt adds: nothing on an empty queue, otherwise one
    line and the one [transmit] call. *)
Lemma handleTransmission_appends (transmit : string -> Z) (st : State) :
  let st' := handleTransmission transmit st in
  transmitMode st' = transmitMode st
  /\ currentFreq st' = currentFreq st
  /\ ArduinoQueue.maxItems (packetQueue st') = ArduinoQueue.maxItems (packetQueue st)
  /\ (exists out, serial st' = serial st ++ out)
  /\ (radio st' = radio st
      \/ exists packet, radio st' = (radio st ++ [Transmit packet])%list).
Proof.
  unfold handleTransmission, ArduinoQueue.isEmpty, ArduinoQueue.dequeue.
  destruct (ArduinoQueue.items (packetQueue st)) as [| head tail]; cbn [negb].
  - repeat split; [exists EmptyString; now rewrite append_nil_r | now left].
  - cbv iota beta.
    destruct (transmit head =? RADIOLIB_ERR_NONE).
    + repeat split; [eexists; rewrite serial_println; cbn; reflexivity | right; eexists; reflexivity].
    + cbn [set_packetQueue transmitMode currentFreq packetQueue serial radio].
      repeat split.
      * unfold ArduinoQueue.enqueue. destruct (_ =? _); reflexivity.
      * eexists. cbn [Serial_println Serial_print serial radio_call set_packetQueue].
        rewrite append_assoc. reflexivity.
      * right. eexists. reflexivity.
Qed.

Lemma handleReception_appends (rx : Z * string) (st st' : State) :
  handleReception rx st = Some st' ->
  (exists out, serial st' = serial st ++ out)
  /\ radio st' = (radio st ++ [Receive])%list.
Proof.
  intros H.
  destruct (handleReception_outcomes _ _ _ H) as [Hr Hs].
  split; [| exact Hr].
  destruct Hs as [E | [[e E] | [E | [d E]]]]; rewrite E.
  - exists EmptyString. now rewrite append_nil_r.
  - eexists. reflexivity.
  - eexists. reflexivity.
  - eexists. reflexivity.
Qed.

(** The radio calls of one turn: at most one [setFrequency] from the
    command, then the one operation of the mode the turn ends in. *)
Lemma loop_radio_calls (i : LoopInput) (st st' : State) :
  loop i st = Some st' ->
  exists from_command from_mode,
    radio st' = (radio st ++ from_command ++ from_mode)%list
    /\ (from_command = [] \/ exists f, from_command = [SetFrequency f])
    /\ (if transmitMode st'
        then from_mode = [] \/ exists packet, from_mode = [Transmit packet]
        else from_mode = [Receive]).
Proof.
  unfold loop.
  set (st0 := match line i with
              | Some command => handleRadioCommand command st
              | None => st
              end).
  assert (H0 : radio st0 = radio st
               \/ exists f, radio st0 = (radio st ++ [SetFrequency f])%list).
  { unfold st0. destruct (line i) as [command |]; [| now left].
    apply handleRadioCommand_appends. }
  destruct (transmitMode st0) eqn:Hmode.
  - intros H. injection H as <-.
    destruct (handleTransmission_appends (transmit_result i) st0)
      as [Hm [_ [_ [_ Hr]]]].
    rewrite Hm, Hmode.
    destruct H0 as [E0 | [f E0]]; destruct Hr as [Er | [p Er]]; rewrite Er, E0.
    + exists [], []. cbn [app]. rewrite app_nil_r. split; [reflexivity |]. split; now left.
    + exists [], [Transmit p]. split; [reflexivity |].
      split; [now left | right; now exists p].
    + exists [SetFrequency f], []. cbn [app]. split; [reflexivity |].
      split; [right; now exists f | now left].
    + exists [SetFrequency f], [Transmit p]. rewrite <- app_assoc.
      split; [reflexivity |]. split; [right; now exists f | right; now exists p].
  - intros H. destruct (handleReception_frame _ _ _ H) as [Hm _].
    destruct (handleReception_appends _ _ _ H) as [_ Hr].
    rewrite Hm, Hmode, Hr.
    destruct H0 as [E0 | [f E0]]; rewrite E0.
    + exists [], [Receive]. split; [reflexivity |]. split; [now left | reflexivity].
    + exists [SetFrequency f], [Receive]. rewrite <- app_assoc.
      split; [reflexivity |]. split; [right; now exists f | reflexivity].
Qed.

Lemma loop_quiet_mode (i : LoopInput) (st st' : State) :
  quiet_turn i -> loop i st = Some st' -> transmitMode st' = transmitMode st.
Proof.
  unfold quiet_turn, loop. intros Hq.
  set (st0 := match line i with
              | Some command => handleRadioCommand command st
              | None => st
              end).
  assert (H0 : transmitMode st0 = transmitMode st).
  { unfold st0. destruct (line i) as [command |]; [| reflexivity].
    destruct Hq as [Hrx Htx]. rewrite handleRadioCommand_mode. now rewrite Htx, Hrx. }
  destruct (transmitMode st0) eqn:E.
  - intros H. injection H as <-. rewrite handleTransmission_mode. congruence.
  - intros H. destruct (handleReception_frame _ _ _ H) as [Hm _]. congruence.
Qed.

(** X14. As long as no line asks for RX, the gateway never listens:
    from a state in TX mode, turns of [loop] whose lines start with
    neither mode command all run to completion and call
    [radio.receive] not once. *)
Theorem tx_mode_never_receives :
  forall (inputs : list LoopInput) (st : State),
    transmitMode st = true ->
    Forall quiet_turn inputs ->
    exists st' calls,
      run inputs st = Some st'
      /\ transmitMode st' = true
      /\ radio st' = (radio st ++ calls)%list
      /\ Forall (fun c => c <> Receive) calls.
Proof.
  intros inputs. induction inputs as [| i rest IH]; intros st Hmode Hall.
  - exists st, []. rewrite app_nil_r. repeat split; [exact Hmode | constructor].
  - inversion Hall as [| ? ? Hq Hrest]; subst.
    assert (Hsome : exists st1, loop i st = Some st1).
    { unfold loop.
      destruct (transmitMode
                  match line i with
                  | Some command => handleRadioCommand command st
                  | None => st
                  end) eqn:E; [eexists; reflexivity |].
      exfalso. unfold quiet_turn in Hq.
      destruct (line i) as [command |]; [| congruence].
      destruct Hq as [Hrx Htx]. rewrite handleRadioCommand_mode in E.
      rewrite Htx, Hrx in E. congruence. }
    destruct Hsome as [st1 Hloop].
    pose proof (loop_quiet_mode _ _ _ Hq Hloop) as Hm1. rewrite Hmode in Hm1.
    destruct (loop_radio_calls _ _ _ Hloop) as [c1 [c2 [Hr [Hc1 Hc2]]]].
    rewrite Hm1 in Hc2.
    destruct (IH st1 Hm1 Hrest) as [st' [calls [Hrun [Hm' [Hr' Hcalls]]]]].
    exists st', (c1 ++ c2 ++ calls)%list.
    simpl. rewrite Hloop. split; [exact Hrun |]. split; [exact Hm' |].
    split; [rewrite Hr', Hr; now rewrite <- !app_assoc |].
    apply Forall_app. split.
    + destruct Hc1 as [-> | [f ->]]; repeat constructor; discriminate.
    + apply Forall_app. split; [| exact Hcalls].
      destruct Hc2 as [-> | [p ->]]; repeat constructor; discriminate.
Qed.

Lemma loop_RX_queue (i : LoopInput) (st st' : State) :
  loop i st = Some st' ->
  transmitMode st' = false ->
  exists added,
    ArduinoQueue.items (packetQueue st')
    = (ArduinoQueue.items (packetQueue st) ++ added)%list.
Proof.
  unfold loop.
  set (st0 := match line i with
              | Some command => handleRadioCommand command st
              | None => st
              end).
  assert (H0 : exists added,
             ArduinoQueue.items (packetQueue st0)
             = (ArduinoQueue.items (packetQueue st) ++ added)%list).
  { unfold st0. destruct (line i) as [command |].
    - apply handleRadioCommand_queue_grows.
    - exists []. now rewrite app_nil_r. }
  destruct (transmitMode st0) eqn:Hmode.
  - intros H Hm. injection H as <-.
    rewrite handleTransmission_mode in Hm. congruence.
  - intros H _. destruct (handleReception_frame _ _ _ H) as [_ [_ Hq]].
    now rewrite Hq.
Qed.

(** X15. While the gateway is in RX mode queued payloads wait: over
    turns of [loop] whose lines start with neither mode command,
    [radio.transmit] is never called and no entry leaves the queue;
    [<DATA|] lines can only add entries behind those already there. *)
Theorem rx_mode_never_transmits :
  forall (inputs : list LoopInput) (st st' : State),
    transmitMode st = false ->
    Forall quiet_turn inputs ->
    run inputs st = Some st' ->
    transmitMode st' = false
    /\ (exists calls,
          radio st' = (radio st ++ calls)%list
          /\ Forall (fun c => forall packet, c <> Transmit packet) calls)
    /\ (exists added,
          ArduinoQueue.items (packetQueue st')
          = (ArduinoQueue.items (packetQueue st) ++ added)%list).
Proof.
  intros inputs. induction inputs as [| i rest IH]; intros st st' Hmode Hall Hrun.
  - simpl in Hrun. injection Hrun as <-.
    split; [exact Hmode |]. split.
    + exists []. rewrite app_nil_r. split; [reflexivity | constructor].
    + exists []. now rewrite app_nil_r.
  - inversion Hall as [| ? ? Hq Hrest]; subst. simpl in Hrun.
    destruct (loop i st) as [st1 |] eqn:Hloop; [| discriminate].
    pose proof (loop_quiet_mode _ _ _ Hq Hloop) as Hm1. rewrite Hmode in Hm1.
    destruct (loop_radio_calls _ _ _ Hloop) as [c1 [c2 [Hr [Hc1 Hc2]]]].
    rewrite Hm1 in Hc2.
    destruct (loop_RX_queue _ _ _ Hloop Hm1) as [added1 Hq1].
    destruct (IH st1 st' Hm1 Hrest Hrun) as [Hm' [[calls [Hr' Hcalls]] [added Hq']]].
    split; [exact Hm' |]. split.
    + exists (c1 ++ c2 ++ calls)%list.
      split; [rewrite Hr', Hr; now rewrite <- !app_assoc |].
      apply Forall_app. split.
      * destruct Hc1 as [-> | [f ->]]; repeat constructor; discriminate.
      * apply Forall_app. split; [| exact Hcalls].
        rewrite Hc2. repeat constructor. discriminate.
    + exists (added1 ++ added)%list. rewrite Hq', Hq1. now rewrite <- app_assoc.
Qed.

(** X16. Queueing and sending compose within one turn: in TX mode
    with an empty queue, a turn that reads [<DATA|p>] and whose radio
    accepts hands [p] to the radio in that same turn, writes the single
    line [<STATUS|TX_SUCCESS>] and leaves the queue empty again. *)
Theorem data_line_is_sent_in_its_turn :
  forall (payload : string) (transmit : string -> Z) (rx : Z * string) (st : State),
    transmitMode st = true ->
    packetQueue st = ArduinoQueue.create 50 ->
    fits (data_line payload) ->
    strchr payload ">" = None ->
    transmit payload = RADIOLIB_ERR_NONE ->
    loop (mkInput (Some (data_line payload)) transmit rx) st =
      Some (mkState true (currentFreq st) (ArduinoQueue.create 50)
              (serial st ++ "<STATUS|TX_SUCCESS>" ++ CRLF)
              (radio st ++ [Transmit payload])%list).
Proof.
  intros payload transmit rx st Hmode Hqueue Hfits Hnone Hok.
  destruct st as [m f q s r]. cbn [transmitMode packetQueue] in Hmode, Hqueue.
  subst m q.
  unfold loop. cbn [line transmit_result receive_result].
  rewrite handleRadioCommand_data_line by assumption.
  cbn [set_packetQueue transmitMode currentFreq packetQueue serial radio].
  f_equal.
  erewrite handleTransmission_head with (head := payload) (rest := []).
  - rewrite Hok. reflexivity.
  - unfold ArduinoQueue.wf. intros H. discriminate H.
  - reflexivity.
Qed.

Lemma loop_maxItems (i : LoopInput) (st st' : State) :
  loop i st = Some st' ->
  ArduinoQueue.maxItems (packetQueue st') = ArduinoQueue.maxItems (packetQueue st).
Proof.
  unfold loop.
  set (st0 := match line i with
              | Some command => handleRadioCommand command st
              | None => st
              end).
  assert (H0 : ArduinoQueue.maxItems (packetQueue st0)
               = ArduinoQueue.maxItems (packetQueue st)).
  { unfold st0. destruct (line i); [apply handleRadioCommand_maxItems | reflexivity]. }
  destruct (transmitMode st0).
  - intros H. injection H as <-.
    destruct (handleTransmission_appends (transmit_result i) st0) as [_ [_ [Hm _]]].
    congruence.
  - intros H. destruct (handleReception_frame _ _ _ H) as [_ [_ Hq]]. congruence.
Qed.

(** X17. The queue never holds more than fifty payloads: in every
    state the program reaches from its initial state, through any
    commands and any radio answers, the capacity is 50 and the number
    of entries is at most 50. *)
Theorem queue_never_exceeds_fifty :
  forall (inputs : list LoopInput) (st' : State),
    run inputs initial_state = Some st' ->
    ArduinoQueue.maxItems (packetQueue st') = 50
    /\ (List.length (ArduinoQueue.items (packetQueue st')) <= 50)%nat.
Proof.
  intros inputs st' Hrun.
  assert (Hmax : forall ins st st1,
             run ins st = Some st1 ->
             ArduinoQueue.maxItems (packetQueue st1)
             = ArduinoQueue.maxItems (packetQueue st)).
  { induction ins as [| i rest IH]; intros st st1 H; simpl in H.
    - now injection H as <-.
    - destruct (loop i st) as [st2 |] eqn:Hloop; [| discriminate].
      rewrite (IH _ _ H). now apply loop_maxItems with (i := i). }
  pose proof (run_wf inputs initial_state st' initial_state_wf Hrun) as Hwf.
  pose proof (Hmax _ _ _ Hrun) as Hm. change (ArduinoQueue.maxItems (packetQueue initial_state)) with 50 in Hm.
  split; [exact Hm |].
  unfold ArduinoQueue.wf, ArduinoQueue.count in Hwf. rewrite Hm in Hwf. lia.
Qed.

Lemma last_SetFrequency_app (calls : list RadioCall) (c : RadioCall) :
  last_SetFrequency (calls ++ [c]) =
    match c with
    | SetFrequency f => Some f
    | _ => last_SetFrequency calls
    end.
Proof.
  induction calls as [| a calls IH]; simpl.
  - now destruct c.
  - rewrite IH. destruct c; reflexivity.
Qed.

Lemma loop_frequency (i : LoopInput) (st st' : State) :
  loop i st = Some st' ->
  currentFreq st = match last_SetFrequency (radio st) with
                   | Some f => f
                   | None => float_868
                   end ->
  currentFreq st' = match last_SetFrequency (radio st') with
                    | Some f => f
                    | None => float_868
                    end.
Proof.
  unfold loop. intros H Hinv.
  set (st0 := match line i with
              | Some command => handleRadioCommand command st
              | None => st
              end) in *.
  assert (H0 : currentFreq st0 = match last_SetFrequency (radio st0) with
                                 | Some f => f
                                 | None => float_868
                                 end).
  { unfold st0. destruct (line i) as [command |]; [| exact Hinv].
    destruct (handleRadioCommand_freq command st) as [[Hr Hf] | Hr].
    - now rewrite Hr, Hf.
    - rewrite Hr. now rewrite last_SetFrequency_app. }
  destruct (transmitMode st0).
  - injection H as <-.
    destruct (handleTransmission_appends (transmit_result i) st0)
      as [_ [Hf [_ [_ Hr]]]].
    rewrite Hf. destruct Hr as [Hr | [p Hr]]; rewrite Hr; [exact H0 |].
    now rewrite last_SetFrequency_app.
  - destruct (handleReception_frame _ _ _ H) as [_ [Hf _]].
    destruct (handleReception_appends _ _ _ H) as [_ Hr].
    rewrite Hf, Hr. now rewrite last_SetFrequency_app.
Qed.

(** X18. The frequency the gateway remembers is always the one the
    radio was last given: in every state reached from the initial one,
    [currentFreq] is the argument of the latest [setFrequency] call, or
    868.0 if there has been none. *)
Theorem currentFreq_is_last_frequency_set :
  forall (inputs : list LoopInput) (st' : State),
    run inputs initial_state = Some st' ->
    currentFreq st' = match last_SetFrequency (radio st') with
                      | Some f => f
                      | None => float_868
                      end.
Proof.
  intros inputs st' Hrun.
  assert (Hgen : forall ins st st1,
             run ins st = Some st1 ->
             currentFreq st = match last_SetFrequency (radio st) with
                              | Some f => f
                              | None => float_868
                              end ->
             currentFreq st1 = match last_SetFrequency (radio st1) with
                               | Some f => f
                               | None => float_868
                               end).
  { induction ins as [| i rest IH]; intros st st1 H Hinv; simpl in H.
    - now injection H as <-.
    - destruct (loop i st) as [st2 |] eqn:Hloop; [| discriminate].
      apply (IH st2 st1 H). now apply loop_frequency with (i := i) (st := st). }
  apply (Hgen inputs initial_state st' Hrun). reflexivity.
Qed.

End LoopMore.

(** ** Incomplete [<FILE|] lines, and start-up *)

Section FileAndStartup.

Context {P : Platform}.
Import WString WStringFacts DecimalFacts.

(** [substring] takes its two bounds in either order. *)
Lemma substring_swap (s : string) (a b : Z) : substring s a b = substring s b a.
Proof.
  unfold substring.
  destruct (to_uint b <? to_uint a) eqn:E1; destruct (to_uint a <? to_uint b) eqn:E2;
    try reflexivity.
  - apply Z.ltb_lt in E1. apply Z.ltb_lt in E2. lia.
  - apply Z.ltb_ge in E1. apply Z.ltb_ge in E2.
    assert (E : to_uint a = to_uint b) by lia. now rewrite E.
Qed.

(** X19. A [<FILE|] line with no further [|] still answers: all of the
    text after the prefix, a closing [>] included, is echoed as the
    name, and the total is 0, read from the five characters [<FILE]
    that lie before the only [|] of the line. *)
Theorem file_line_without_fields_echoes_zero :
  forall (rest : string) (st : State),
    fits ("<FILE|" ++ rest) ->
    strchr rest "|" = None ->
    handleRadioCommand ("<FILE|" ++ rest) st =
      mkState (transmitMode st) (currentFreq st) (packetQueue st)
              (serial st ++ "<STATUS|FILE_START|" ++ rest ++ "|0>" ++ CRLF)
              (radio st).
Proof.
  intros rest st Hfits Hnone.
  rewrite handleRadioCommand_file by apply startsWith_app.
  assert (Hname : substring ("<FILE|" ++ rest) 6
                    (indexOf_from ("<FILE|" ++ rest) "|" 6) = rest).
  { change 6 with (len "<FILE|").
    rewrite (substring_upto "<FILE|" rest "|").
    - now apply upto_none.
    - exact Hfits.
    - rewrite indexOf_from_prefix by exact Hfits. reflexivity. }
  assert (Hfrom : indexOf_from ("<FILE|" ++ rest) "|" 6 = -1).
  { change 6 with (len "<FILE|").
    rewrite indexOf_from_prefix by exact Hfits. now rewrite Hnone. }
  assert (Hlast : lastIndexOf ("<FILE|" ++ rest) "|" = 5).
  { change ("<FILE|" ++ rest) with ("<FILE" ++ String "|" rest).
    now rewrite lastIndexOf_last. }
  assert (Htotal : substring ("<FILE|" ++ rest) (-1 + 1) 5 = "<FILE").
  { rewrite substring_between; [reflexivity | exact Hfits | lia |].
    rewrite len_append. pose proof (len_nonneg rest).
    change (len "<FILE|") with 6. lia. }
  unfold file_fields. cbn [fst snd].
  rewrite Hname, Hfrom, Hlast, Htotal. reflexivity.
Qed.

(** X20. A [<FILE|] line with a single [|] after the name reports the
    total 0 whatever follows that [|]: the first and the last [|] are
    then the same one, the bounds of the total are out of order, and
    [substring] swaps them and returns the [|] itself. *)
Theorem file_line_with_one_field_echoes_zero :
  forall (name second : string) (st : State),
    fits ("<FILE|" ++ name ++ "|" ++ second) ->
    strchr name "|" = None ->
    strchr second "|" = None ->
    handleRadioCommand ("<FILE|" ++ name ++ "|" ++ second) st =
      mkState (transmitMode st) (currentFreq st) (packetQueue st)
              (serial st ++ "<STATUS|FILE_START|" ++ name ++ "|0>" ++ CRLF)
              (radio st).
Proof.
  intros name second st Hfits Hname Hsecond.
  rewrite handleRadioCommand_file by apply startsWith_app.
  set (command := "<FILE|" ++ name ++ "|" ++ second) in *.
  assert (Hfrom : indexOf_from command "|" 6 = 6 + len name).
  { unfold command. change 6 with (len "<FILE|") at 1.
    rewrite indexOf_from_prefix by exact Hfits.
    rewrite strchr_app_r by exact Hname.
    change ("|" ++ second) with (String "|" second).
    rewrite strchr_here. unfold len. simpl String.length. lia. }
  assert (E : command = ("<FILE|" ++ name) ++ "|" ++ second).
  { unfold command. now rewrite append_assoc. }
  assert (Hlast : lastIndexOf command "|" = 6 + len name).
  { rewrite E. change ("|" ++ second) with (String "|" second).
    rewrite lastIndexOf_last.
    - rewrite len_append. reflexivity.
    - change (String "|" second) with ("|" ++ second). rewrite <- E. exact Hfits.
    - exact Hsecond. }
  assert (Hfile : substring command 6 (6 + len name) = name).
  { change 6 with (len "<FILE|"). apply (substring_middle "<FILE|" name). exact Hfits. }
  assert (Htotal : substring command (6 + len name + 1) (6 + len name) = "|").
  { rewrite substring_swap. rewrite E.
    replace (6 + len name) with (len ("<FILE|" ++ name))
      by (rewrite len_append; reflexivity).
    change 1 with (len "|").
    apply (substring_middle ("<FILE|" ++ name) "|" second).
    rewrite <- E. exact Hfits. }
  unfold file_fields. cbn [fst snd].
  rewrite Hfrom, Hlast, Hfile, Htotal. reflexivity.
Qed.

(** X21. Start-up.  When [radio.begin] fails, the one line
    [<ERROR|RADIO_INIT_CODE:<code>>] is written, the code being the
    driver's answer in decimal so that it reads back as the same
    number, and the program stays there: whatever lines arrive later,
    nothing more is written and no further radio call is made.  When
    [radio.begin] succeeds nothing is written, the radio was started on
    868.0, and [loop] takes over from the initial state. *)
Theorem failed_radio_start_halts_gateway :
  forall (f_bitrate f_bandwidth f_deviation : float)
         (code : Z) (inputs : list LoopInput),
    - 2 ^ 31 <= code < 2 ^ 31 ->
    (code <> RADIOLIB_ERR_NONE ->
       program f_bitrate f_bandwidth f_deviation code inputs =
         Some (mkState true float_868 (ArduinoQueue.create 50)
                 ("<ERROR|RADIO_INIT_CODE:" ++ print_int code ++ ">" ++ CRLF) [])
       /\ to_int32 (toInt (print_int code)) = code)
    /\ (code = RADIOLIB_ERR_NONE ->
          program f_bitrate f_bandwidth f_deviation code inputs
          = run inputs initial_state
          /\ exists others,
               setup f_bitrate f_bandwidth f_deviation code
               = Ready initial_state (Begin float_868 :: others)).
Proof.
  intros f1 f2 f3 code inputs Hrange. split.
  - intros Hne. split; [| now apply toInt_print_int].
    unfold program, setup, initializeRadio.
    apply Z.eqb_neq in Hne. rewrite Hne. cbn [negb].
    unfold Serial_println, Serial_print, initial_state. cbn.
    now rewrite !append_assoc.
  - intros ->. split; [reflexivity |]. eexists. reflexivity.
Qed.

End FileAndStartup.

(** ** Worked examples on the reference platform *)

#[local] Existing Instance Reference.platform.

Lemma unrecognized_line_ignored_witness :
  WString.startsWith "hello world" "<SET|" = false
  /\ WString.startsWith "hello world" "<DATA|" = false
  /\ handleRadioCommand "hello world" initial_state
     = initial_state.
Proof.
  split; [reflexivity |]. split; [reflexivity |].
  apply (@unrecognized_line_ignored Reference.platform "hello world" initial_state);
    reflexivity.
Defined.

Lemma data_command_enqueues_witness :
  WString.fits "<DATA|hello>"
  /\ WString.startsWith "<DATA|hello>" "<DATA|" = true
  /\ handleRadioCommand "<DATA|hello>" initial_state
     = set_packetQueue
         (ArduinoQueue.enqueue "hello" (packetQueue initial_state)) initial_state.
Proof.
  assert (Hfits : WString.fits "<DATA|hello>") by (unfold WString.fits; reflexivity).
  split; [exact Hfits |]. split; [reflexivity |].
  exact (proj1 (@data_command_enqueues Reference.platform "<DATA|hello>"
                  initial_state Hfits eq_refl)).
Defined.

Lemma set_command_sets_frequency_witness :
  WString.fits "<SET|12abc,x>"
  /\ WString.startsWith "<SET|12abc,x>" "<SET|" = true
  /\ handleRadioCommand "<SET|12abc,x>" initial_state
     = mkState true (atof "12abc") (ArduinoQueue.create 50)
               ("<STATUS|FREQ_SET>" ++ CRLF) [SetFrequency (atof "12abc")]
  /\ currentFreq (handleRadioCommand "<SET|433.92,x>" initial_state) = (43392, 2).
Proof.
  assert (Hfits : WString.fits "<SET|12abc,x>") by (unfold WString.fits; reflexivity).
  split; [exact Hfits |]. split; [reflexivity |].
  pose proof (@set_command_sets_frequency Reference.platform "<SET|12abc,x>"
                initial_state Hfits eq_refl) as H.
  destruct H as [Hst [_ [_ [Hex _]]]].
  split; [exact Hst | exact Hex].
Defined.

(** The text [12abc] is no well-formed number, yet it is not answered
    with zero: as with [atof], the leading [12] is converted, stored
    and handed to the radio, and [<STATUS|FREQ_SET>] is written. *)
Lemma malformed_number_is_not_zero :
  well_formed_number "12abc" = false
  /\ handleRadioCommand "<SET|12abc,x>" initial_state
     = mkState true (12, 0) (ArduinoQueue.create 50)
               ("<STATUS|FREQ_SET>" ++ CRLF) [SetFrequency (12, 0)]
  /\ currentFreq (handleRadioCommand "<SET|12abc,x>" initial_state) <> float_zero.
Proof.
  split; [reflexivity |]. split; [reflexivity |].
  intros E. discriminate E.
Qed.

Lemma mode_flag_transitions_witness :
  Forall keeps_mode ["hello world"; "<DATA|x>"; "<SET|433.92,x>"]
  /\ transmitMode
       (handleRadioCommands ["hello world"; "<DATA|x>"; "<SET|433.92,x>"]
          initial_state) = true
  /\ WString.startsWith "<RXMODE>" "<RXMODE>" = true
  /\ handleRadioCommand "<RXMODE>" initial_state
     = mkState false float_868 (ArduinoQueue.create 50)
               ("<STATUS|RX_MODE>" ++ CRLF) []
  /\ WString.startsWith "<TXMODE>" "<TXMODE>" = true
  /\ handleRadioCommand "<TXMODE>" (handleRadioCommand "<RXMODE>" initial_state)
     = mkState true float_868 (ArduinoQueue.create 50)
               ("<STATUS|RX_MODE>" ++ CRLF ++ "<STATUS|TX_MODE>" ++ CRLF) [].
Proof.
  assert (Hall : Forall keeps_mode ["hello world"; "<DATA|x>"; "<SET|433.92,x>"]).
  { repeat constructor. }
  destruct (@mode_flag_transitions Reference.platform)
    as [_ [Hrx [Htx [_ [_ [Hseq _]]]]]].
  split; [exact Hall |]. split; [exact (Hseq _ Hall) |].
  split; [reflexivity |].
  split; [exact (Hrx "<RXMODE>" initial_state eq_refl) |].
  split; [reflexivity |].
  exact (Htx "<TXMODE>" (handleRadioCommand "<RXMODE>" initial_state) eq_refl).
Defined.

Lemma file_command_echoes_name_and_total_witness :
  WString.fits "<FILE|a.txt|3|1024>"
  /\ WString.strchr "a.txt" "|" = None
  /\ WString.strchr "3" "|" = None
  /\ WString.strchr "1024" "|" = None
  /\ handleRadioCommand "<FILE|a.txt|3|1024>" initial_state
     = mkState true float_868 (ArduinoQueue.create 50)
               ("<STATUS|FILE_START|a.txt|3>" ++ CRLF) []
  /\ file_fields "<FILE|a.txt|3|1024>" = ("a.txt", 3, 1024).
Proof.
  assert (Hfits : WString.fits "<FILE|a.txt|3|1024>")
    by (unfold WString.fits; reflexivity).
  split; [exact Hfits |].
  split; [reflexivity |]. split; [reflexivity |]. split; [reflexivity |].
  destruct (@file_command_echoes_name_and_total Reference.platform
              "a.txt" "3" "1024" initial_state Hfits eq_refl eq_refl eq_refl)
    as [Hst [Hfields _]].
  split; [exact Hst | exact (Hfields eq_refl eq_refl eq_refl)].
Defined.

Lemma transmission_never_grows_queue_witness :
  ArduinoQueue.wf
    (packetQueue (handleRadioCommands ["<DATA|A>"; "<DATA|B>"] initial_state))
  /\ ArduinoQueue.items
       (packetQueue
          (handleTransmission (fun _ => -1)
             (handleRadioCommands ["<DATA|A>"; "<DATA|B>"] initial_state)))
     = ["B"; "A"]
  /\ ArduinoQueue.items
       (packetQueue
          (handleTransmission (fun _ => RADIOLIB_ERR_NONE)
             (handleRadioCommands ["<DATA|A>"; "<DATA|B>"] initial_state)))
     = ["B"].
Proof.
  assert (Hwf : ArduinoQueue.wf
                  (packetQueue (handleRadioCommands ["<DATA|A>"; "<DATA|B>"]
                                  initial_state))).
  { unfold ArduinoQueue.wf. intros H. discriminate H. }
  split; [exact Hwf |]. split.
  - destruct (@transmission_never_grows_queue Reference.platform (fun _ => -1)
                _ Hwf) as [_ [_ [_ Hfail]]].
    refine (proj1 (Hfail "A" ["B"] eq_refl _)). intros H. discriminate H.
  - destruct (@transmission_never_grows_queue Reference.platform
                (fun _ => RADIOLIB_ERR_NONE) _ Hwf) as [_ [_ [Hok _]]].
    exact (proj1 (Hok "A" ["B"] eq_refl eq_refl)).
Defined.

Lemma failed_payload_retries_at_tail_witness :
  ArduinoQueue.wf
    (packetQueue (handleRadioCommands ["<DATA|A>"; "<DATA|B>"] initial_state))
  /\ ArduinoQueue.items
       (packetQueue (handleRadioCommands ["<DATA|A>"; "<DATA|B>"] initial_state))
     = ["A"; "B"]
  /\ serial
       (attempts [(fun _ => -1); (fun _ => RADIOLIB_ERR_NONE);
                  (fun _ => RADIOLIB_ERR_NONE)]
          (handleRadioCommands ["<DATA|A>"; "<DATA|B>"] initial_state))
     = "<STATUS|TX_FAIL>" ++ CRLF ++ "<STATUS|TX_SUCCESS>" ++ CRLF
         ++ "<STATUS|TX_SUCCESS>" ++ CRLF.
Proof.
  assert (Hwf : ArduinoQueue.wf
                  (packetQueue (handleRadioCommands ["<DATA|A>"; "<DATA|B>"]
                                  initial_state))).
  { unfold ArduinoQueue.wf. intros H. discriminate H. }
  split; [exact Hwf |]. split; [reflexivity |].
  destruct (@failed_payload_retries_at_tail Reference.platform) as [_ Hrun].
  refine (proj1 (Hrun "A" "B" (fun _ => -1) (fun _ => RADIOLIB_ERR_NONE)
                   (fun _ => RADIOLIB_ERR_NONE) _ Hwf eq_refl _ eq_refl eq_refl)).
  intros H. discriminate H.
Defined.

Lemma checksum_gate_uses_unpadded_hex_witness :
  deserializeJson "type=d;filename=f;checksum=14;data=hello"
    = inl [("type", "d"); ("filename", "f"); ("checksum", "14"); ("data", "hello")]
  /\ handleReception
       (RADIOLIB_ERR_NONE, "type=d;filename=f;checksum=14;data=hello")
       initial_state
     = Some (mkState true float_868 (ArduinoQueue.create 50)
               ("<DATA|type=d;filename=f;checksum=14;data=hello;>" ++ CRLF)
               [Receive]).
Proof.
  split; [reflexivity |].
  destruct (@checksum_gate_uses_unpadded_hex Reference.platform
              "type=d;filename=f;checksum=14;data=hello"
              [("type", "d"); ("filename", "f"); ("checksum", "14"); ("data", "hello")]
              "d" "f" "14" initial_state eq_refl eq_refl eq_refl eq_refl)
    as [Hfwd _].
  exact (proj1 Hfwd eq_refl).
Defined.

Lemma reception_failures_change_nothing_witness :
  deserializeJson "" = inr "EmptyInput"
  /\ handleReception (RADIOLIB_ERR_NONE, "") initial_state
     = Some (mkState true float_868 (ArduinoQueue.create 50)
               ("<ERROR|JSON:EmptyInput>" ++ CRLF) [Receive])
  /\ handleReception
       (RADIOLIB_ERR_NONE, "type=d;filename=f;checksum=15;data=hello")
       initial_state
     = Some (mkState true float_868 (ArduinoQueue.create 50)
               ("<STATUS|CHECKSUM_ERR>" ++ CRLF) [Receive]).
Proof.
  destruct (@reception_failures_change_nothing Reference.platform)
    as [Herr [_ Hsum]].
  split; [reflexivity |]. split.
  - exact (Herr "" "EmptyInput" initial_state eq_refl).
  - refine (Hsum "type=d;filename=f;checksum=15;data=hello"
              [("type", "d"); ("filename", "f"); ("checksum", "15"); ("data", "hello")]
              "d" "f" "15" initial_state eq_refl eq_refl eq_refl eq_refl _).
    intros H. discriminate H.
Defined.

(** A packet whose data sums to 0 and which declares the two-digit
    checksum [00] is turned away: the text it is compared with is [0]. *)
Lemma two_digit_checksum_is_rejected :
  deserializeJson "type=d;filename=f;checksum=00;data=UUV"
    = inl [("type", "d"); ("filename", "f"); ("checksum", "00"); ("data", "UUV")]
  /\ calculateChecksum char_is_signed "UUV" = 0
  /\ WString.take 2 "00" = two_hex_digits (calculateChecksum char_is_signed "UUV")
  /\ handleReception
       (RADIOLIB_ERR_NONE, "type=d;filename=f;checksum=00;data=UUV")
       initial_state
     = Some (mkState true float_868 (ArduinoQueue.create 50)
               ("<STATUS|CHECKSUM_ERR>" ++ CRLF) [Receive]).
Proof.
  repeat split.
Qed.

(** ** Worked examples for the further properties *)

Lemma calculateChecksum_blind_to_order_witness :
  Permutation (list_ascii_of_string "ab") (list_ascii_of_string "ba")
  /\ calculateChecksum false "ab" = calculateChecksum false "ba".
Proof.
  assert (H : Permutation (list_ascii_of_string "ab") (list_ascii_of_string "ba"))
    by apply perm_swap.
  split; [exact H | exact (calculateChecksum_blind_to_order false "ab" "ba" H)].
Defined.

Lemma calculateChecksum_detects_one_change_witness :
  "l"%char <> "p"%char
  /\ calculateChecksum false "hello" <> calculateChecksum false "helpo".
Proof.
  assert (H : "l"%char <> "p"%char) by (intros E; discriminate E).
  split; [exact H |].
  exact (calculateChecksum_detects_one_change false "hel" "o" "l" "p" H).
Defined.

Lemma honest_checksum_is_forwarded_witness :
  deserializeJson "type=d;filename=f;checksum=0;data=UUV"
    = inl [("type", "d"); ("filename", "f"); ("checksum", "0"); ("data", "UUV")]
  /\ handleReception (RADIOLIB_ERR_NONE, "type=d;filename=f;checksum=0;data=UUV")
       initial_state
     = Some (mkState true float_868 (ArduinoQueue.create 50)
               ("<DATA|type=d;filename=f;checksum=0;data=UUV;>" ++ CRLF)
               [Receive]).
Proof.
  split; [reflexivity |].
  exact (@honest_checksum_is_forwarded Reference.platform
           "type=d;filename=f;checksum=0;data=UUV"
           [("type", "d"); ("filename", "f"); ("checksum", "0"); ("data", "UUV")]
           "d" "f" initial_state eq_refl eq_refl eq_refl eq_refl).
Defined.

Lemma declared_checksum_is_cut_to_two_characters_witness :
  handleReception (RADIOLIB_ERR_NONE, "type=d;filename=f;checksum=14zz;data=hello")
    initial_state
  = Some (mkState true float_868 (ArduinoQueue.create 50)
            ("<DATA|type=d;filename=f;checksum=14zz;data=hello;>" ++ CRLF)
            [Receive])
  /\ handleReception (RADIOLIB_ERR_NONE, "type=d;filename=f;checksum=0z;data=UUV")
       initial_state
     = Some (mkState true float_868 (ArduinoQueue.create 50)
               ("<STATUS|CHECKSUM_ERR>" ++ CRLF) [Receive]).
Proof.
  split.
  - exact (@declared_checksum_is_cut_to_two_characters Reference.platform
             "type=d;filename=f;checksum=14zz;data=hello"
             [("type", "d"); ("filename", "f"); ("checksum", "14zz"); ("data", "hello")]
             "d" "f" "z"%char "z" initial_state eq_refl eq_refl eq_refl eq_refl).
  - exact (@declared_checksum_is_cut_to_two_characters Reference.platform
             "type=d;filename=f;checksum=0z;data=UUV"
             [("type", "d"); ("filename", "f"); ("checksum", "0z"); ("data", "UUV")]
             "d" "f" "z"%char "" initial_state eq_refl eq_refl eq_refl eq_refl).
Defined.

Lemma one_changed_character_is_rejected_witness :
  "o"%char <> "p"%char
  /\ handleReception (RADIOLIB_ERR_NONE, "type=d;filename=f;checksum=14;data=hellp")
       initial_state
     = Some (mkState true float_868 (ArduinoQueue.create 50)
               ("<STATUS|CHECKSUM_ERR>" ++ CRLF) [Receive]).
Proof.
  assert (H : "o"%char <> "p"%char) by (intros E; discriminate E).
  split; [exact H |].
  exact (@one_changed_character_is_rejected Reference.platform
           "type=d;filename=f;checksum=14;data=hellp"
           [("type", "d"); ("filename", "f"); ("checksum", "14"); ("data", "hellp")]
           "d" "f" "hell" "" "o"%char "p"%char initial_state
           eq_refl eq_refl eq_refl eq_refl eq_refl H).
Defined.

Lemma reception_writes_one_line_per_packet_witness :
  handleReception (-1, "") initial_state = Some (radio_call Receive initial_state)
  /\ serial (radio_call Receive initial_state) = EmptyString
  /\ handleReception (RADIOLIB_ERR_NONE, "") initial_state
     = Some (mkState true float_868 (ArduinoQueue.create 50)
               ("<ERROR|JSON:EmptyInput>" ++ CRLF) [Receive])
  /\ serial (mkState true float_868 (ArduinoQueue.create 50)
               ("<ERROR|JSON:EmptyInput>" ++ CRLF) [Receive])
     = serial initial_state ++ "<ERROR|JSON:" ++ "EmptyInput" ++ ">" ++ CRLF.
Proof.
  split; [reflexivity |]. split.
  - refine (proj1 (proj2 (@reception_writes_one_line_per_packet Reference.platform
                            (-1) "" initial_state _ eq_refl)) _).
    intros E. discriminate E.
  - split; [reflexivity |].
    exact (proj2 (proj2 (@reception_writes_one_line_per_packet Reference.platform
                           RADIOLIB_ERR_NONE "" initial_state _ eq_refl)) eq_refl).
Defined.

Lemma data_line_on_full_queue_is_dropped_witness :
  ArduinoQueue.count
    (packetQueue (handleRadioCommands (map data_line (repeat "x" 50)) initial_state))
  = 50
  /\ handleRadioCommand "<DATA|late>"
       (handleRadioCommands (map data_line (repeat "x" 50)) initial_state)
     = handleRadioCommands (map data_line (repeat "x" 50)) initial_state.
Proof.
  assert (H : ArduinoQueue.count
                (packetQueue (handleRadioCommands (map data_line (repeat "x" 50))
                                initial_state)) = 50) by (vm_compute; reflexivity).
  split; [exact H |].
  apply (@data_line_on_full_queue_is_dropped Reference.platform "<DATA|late>");
    [reflexivity | exact H].
Defined.

Lemma data_lines_in_rx_mode_fill_queue_witness :
  transmitMode (handleRadioCommand "<RXMODE>" initial_state) = false
  /\ run [mkInput (Some (data_line "a")) (fun _ => RADIOLIB_ERR_NONE) (-1, "");
          mkInput (Some (data_line "b")) (fun _ => RADIOLIB_ERR_NONE) (-1, "")]
         (handleRadioCommand "<RXMODE>" initial_state)
     = Some (mkState false float_868 (ArduinoQueue.mk ["a"; "b"] 50)
               ("<STATUS|RX_MODE>" ++ CRLF) [Receive; Receive]).
Proof.
  split; [reflexivity |].
  refine (@data_lines_in_rx_mode_fill_queue Reference.platform ["a"; "b"] _
            (handleRadioCommand "<RXMODE>" initial_state) eq_refl eq_refl _ _).
  - apply Nat.le_0_l.
  - repeat constructor; intros E; discriminate E.
Defined.

Lemma accepted_attempts_send_in_queue_order_witness :
  ArduinoQueue.wf
    (packetQueue (handleRadioCommands ["<DATA|A>"; "<DATA|B>"] initial_state))
  /\ Forall accepts [(fun _ : string => 0); (fun _ : string => 0)]
  /\ radio (attempts [(fun _ : string => 0); (fun _ : string => 0)]
              (handleRadioCommands ["<DATA|A>"; "<DATA|B>"] initial_state))
     = [Transmit "A"; Transmit "B"].
Proof.
  assert (Hwf : ArduinoQueue.wf
                  (packetQueue (handleRadioCommands ["<DATA|A>"; "<DATA|B>"]
                                  initial_state))).
  { unfold ArduinoQueue.wf. intros H. discriminate H. }
  assert (Hok : Forall accepts [(fun _ : string => 0); (fun _ : string => 0)]).
  { repeat constructor. }
  split; [exact Hwf |]. split; [exact Hok |].
  refine (proj1 (@accepted_attempts_send_in_queue_order Reference.platform
                   _ _ Hwf Hok _)).
  apply le_n.
Defined.

Lemma refused_attempts_rotate_queue_witness :
  ArduinoQueue.wf
    (packetQueue (handleRadioCommands ["<DATA|A>"; "<DATA|B>"] initial_state))
  /\ Forall refuses [(fun _ : string => -1); (fun _ : string => -1)]
  /\ ArduinoQueue.items
       (packetQueue
          (attempts [(fun _ : string => -1); (fun _ : string => -1)]
             (handleRadioCommands ["<DATA|A>"; "<DATA|B>"] initial_state)))
     = ["A"; "B"].
Proof.
  assert (Hwf : ArduinoQueue.wf
                  (packetQueue (handleRadioCommands ["<DATA|A>"; "<DATA|B>"]
                                  initial_state))).
  { unfold ArduinoQueue.wf. intros H. discriminate H. }
  assert (Hno : Forall refuses [(fun _ : string => -1); (fun _ : string => -1)]).
  { repeat constructor; intros p E; discriminate E. }
  split; [exact Hwf |]. split; [exact Hno |].
  refine (proj1 (@refused_attempts_rotate_queue Reference.platform
                   _ _ Hwf Hno _)).
  apply le_n.
Defined.

Lemma refused_payload_is_retried_without_limit_witness :
  Forall refuses [(fun _ : string => -1); (fun _ : string => -2); (fun _ : string => -1)]
  /\ radio (attempts [(fun _ : string => -1); (fun _ : string => -2);
                      (fun _ : string => -1)]
              (handleRadioCommand "<DATA|A>" initial_state))
     = [Transmit "A"; Transmit "A"; Transmit "A"].
Proof.
  assert (Hno : Forall refuses
                  [(fun _ : string => -1); (fun _ : string => -2);
                   (fun _ : string => -1)]).
  { repeat constructor; intros p E; discriminate E. }
  split; [exact Hno |].
  refine (proj1 (proj2 (@refused_payload_is_retried_without_limit Reference.platform
                          _ "A" (handleRadioCommand "<DATA|A>" initial_state)
                          _ eq_refl Hno))).
  unfold ArduinoQueue.wf. intros H. discriminate H.
Defined.

Lemma tx_mode_never_receives_witness :
  Forall quiet_turn
    [mkInput (Some "<DATA|A>") (fun _ => -1) (RADIOLIB_ERR_NONE, "");
     mkInput None (fun _ => RADIOLIB_ERR_NONE) (RADIOLIB_ERR_NONE, "")]
  /\ exists st' calls,
       run [mkInput (Some "<DATA|A>") (fun _ => -1) (RADIOLIB_ERR_NONE, "");
            mkInput None (fun _ => RADIOLIB_ERR_NONE) (RADIOLIB_ERR_NONE, "")]
           initial_state = Some st'
       /\ transmitMode st' = true
       /\ radio st' = (radio initial_state ++ calls)%list
       /\ Forall (fun c => c <> Receive) calls.
Proof.
  assert (H : Forall quiet_turn
                [mkInput (Some "<DATA|A>") (fun _ => -1) (RADIOLIB_ERR_NONE, "");
                 mkInput None (fun _ => RADIOLIB_ERR_NONE) (RADIOLIB_ERR_NONE, "")]).
  { repeat constructor. }
  split; [exact H |].
  exact (@tx_mode_never_receives Reference.platform _ initial_state eq_refl H).
Defined.

Lemma rx_mode_never_transmits_witness :
  Forall quiet_turn [mkInput (Some "<DATA|A>") (fun _ => RADIOLIB_ERR_NONE) (-1, "")]
  /\ run [mkInput (Some "<DATA|A>") (fun _ => RADIOLIB_ERR_NONE) (-1, "")]
         (handleRadioCommand "<RXMODE>" initial_state)
     = Some (mkState false float_868 (ArduinoQueue.mk ["A"] 50)
               ("<STATUS|RX_MODE>" ++ CRLF) [Receive])
  /\ transmitMode
       (mkState false float_868 (ArduinoQueue.mk ["A"] 50)
          ("<STATUS|RX_MODE>" ++ CRLF) [Receive]) = false.
Proof.
  assert (H : Forall quiet_turn
                [mkInput (Some "<DATA|A>") (fun _ => RADIOLIB_ERR_NONE) (-1, "")]).
  { repeat constructor. }
  split; [exact H |]. split; [reflexivity |].
  exact (proj1 (@rx_mode_never_transmits Reference.platform _
                  (handleRadioCommand "<RXMODE>" initial_state) _
                  eq_refl H eq_refl)).
Defined.

Lemma data_line_is_sent_in_its_turn_witness :
  WString.fits (data_line "abc")
  /\ WString.strchr "abc" ">" = None
  /\ loop (mkInput (Some (data_line "abc")) (fun _ => RADIOLIB_ERR_NONE)
             (RADIOLIB_ERR_NONE, "")) initial_state
     = Some (mkState true float_868 (ArduinoQueue.create 50)
               ("<STATUS|TX_SUCCESS>" ++ CRLF) [Transmit "abc"]).
Proof.
  assert (Hfits : WString.fits (data_line "abc")) by (unfold WString.fits; reflexivity).
  split; [exact Hfits |]. split; [reflexivity |].
  exact (@data_line_is_sent_in_its_turn Reference.platform "abc"
           (fun _ => RADIOLIB_ERR_NONE) (RADIOLIB_ERR_NONE, "") initial_state
           eq_refl eq_refl Hfits eq_refl eq_refl).
Defined.

Lemma queue_never_exceeds_fifty_witness :
  run [mkInput (Some "<DATA|A>") (fun _ => -1) (RADIOLIB_ERR_NONE, "")] initial_state
  = Some (mkState true float_868 (ArduinoQueue.mk ["A"] 50)
            ("<STATUS|TX_FAIL>" ++ CRLF) [Transmit "A"])
  /\ ArduinoQueue.maxItems (ArduinoQueue.mk ["A"] 50) = 50
  /\ (List.length (ArduinoQueue.items (ArduinoQueue.mk ["A"] 50)) <= 50)%nat.
Proof.
  split; [reflexivity |].
  exact (@queue_never_exceeds_fifty Reference.platform
           [mkInput (Some "<DATA|A>") (fun _ => -1) (RADIOLIB_ERR_NONE, "")]
           _ eq_refl).
Defined.

Lemma currentFreq_is_last_frequency_set_witness :
  run [mkInput (Some "<SET|433.92,x>") (fun _ => RADIOLIB_ERR_NONE) (RADIOLIB_ERR_NONE, "");
       mkInput (Some "<SET|915,x>") (fun _ => RADIOLIB_ERR_NONE) (RADIOLIB_ERR_NONE, "")]
      initial_state
  = Some (mkState true (915, 0) (ArduinoQueue.create 50)
            ("<STATUS|FREQ_SET>" ++ CRLF ++ "<STATUS|FREQ_SET>" ++ CRLF)
            [SetFrequency (43392, 2); SetFrequency (915, 0)])
  /\ currentFreq
       (mkState true (915, 0) (ArduinoQueue.create 50)
          ("<STATUS|FREQ_SET>" ++ CRLF ++ "<STATUS|FREQ_SET>" ++ CRLF)
          [SetFrequency (43392, 2); SetFrequency (915, 0)])
     = match last_SetFrequency [SetFrequency (43392, 2); SetFrequency (915, 0)] with
       | Some f => f
       | None => float_868
       end.
Proof.
  split; [reflexivity |].
  exact (@currentFreq_is_last_frequency_set Reference.platform
           [mkInput (Some "<SET|433.92,x>") (fun _ => RADIOLIB_ERR_NONE)
                    (RADIOLIB_ERR_NONE, "");
            mkInput (Some "<SET|915,x>") (fun _ => RADIOLIB_ERR_NONE)
                    (RADIOLIB_ERR_NONE, "")]
           _ eq_refl).
Defined.

Lemma file_line_without_fields_echoes_zero_witness :
  WString.fits "<FILE|abc>"
  /\ WString.strchr "abc>" "|" = None
  /\ handleRadioCommand "<FILE|abc>" initial_state
     = mkState true float_868 (ArduinoQueue.create 50)
               ("<STATUS|FILE_START|abc>|0>" ++ CRLF) [].
Proof.
  assert (Hfits : WString.fits "<FILE|abc>") by (unfold WString.fits; reflexivity).
  split; [exact Hfits |]. split; [reflexivity |].
  exact (@file_line_without_fields_echoes_zero Reference.platform "abc>"
           initial_state Hfits eq_refl).
Defined.

Lemma file_line_with_one_field_echoes_zero_witness :
  WString.fits "<FILE|a.txt|3>"
  /\ WString.strchr "a.txt" "|" = None
  /\ WString.strchr "3>" "|" = None
  /\ handleRadioCommand "<FILE|a.txt|3>" initial_state
     = mkState true float_868 (ArduinoQueue.create 50)
               ("<STATUS|FILE_START|a.txt|0>" ++ CRLF) [].
Proof.
  assert (Hfits : WString.fits "<FILE|a.txt|3>") by (unfold WString.fits; reflexivity).
  split; [exact Hfits |]. split; [reflexivity |]. split; [reflexivity |].
  exact (@file_line_with_one_field_echoes_zero Reference.platform "a.txt" "3>"
           initial_state Hfits eq_refl eq_refl).
Defined.

Lemma failed_radio_start_halts_gateway_witness :
  - 2 ^ 31 <= -2 < 2 ^ 31
  /\ program (12, 1) (580, 1) (50, 1) (-2)
       [mkInput (Some "<DATA|A>") (fun _ => RADIOLIB_ERR_NONE) (RADIOLIB_ERR_NONE, "")]
     = Some (mkState true float_868 (ArduinoQueue.create 50)
               ("<ERROR|RADIO_INIT_CODE:-2>" ++ CRLF) []).
Proof.
  assert (Hrange : - 2 ^ 31 <= -2 < 2 ^ 31) by (split; [discriminate | reflexivity]).
  split; [exact Hrange |].
  refine (proj1 (proj1 (@failed_radio_start_halts_gateway Reference.platform
                          (12, 1) (580, 1) (50, 1) (-2) _ Hrange) _)).
  intros E. discriminate E.
Defined.
